(** * Bankroll-Buddy: the poker session ledger ([src/PokerStatTracker.js])

    A shallow embedding of the class [PokerStatTracker] and the proofs of its
    ledger properties.

    JavaScript objects and arrays are mutable and are passed by reference, so
    the embedding keeps an explicit store: session objects and arrays live in
    two finite maps indexed by locations, and the tracker's field
    [this._games] holds the location of an array of object locations.  Every
    method is a function from a store to a completion (a returned value or a
    thrown error) and the store afterwards.

    In the store model the amounts are exact rationals ([Qc]): it is used for
    what does not depend on rounding (which records the ledger holds, their
    order, what is shared, what each total accumulates).  The module
    [Doubles] reads the same methods with IEEE doubles for the amounts, and is
    used where rounding decides.  [Math.random] is an input of the
    environment: [addGame] receives the text that
    [Math.random().toString(36)] evaluates to. *)

From Stdlib Require Import QArith Qcanon ZArith.
From Stdlib Require PrimFloat SpecFloat FloatOps.
From stdpp Require Import numbers strings list fin_maps gmap.

(** ** Values, errors and completions *)

Definition loc := positive.

Inductive error : Type :=
  | Error (message : string)      (* [new Error(message)] *)
  | TypeError.                    (* a property access on [undefined] *)

Inductive value : Type :=
  | VUndefined
  | VNumber (q : Qc)
  | VString (s : string)
  | VRef (l : loc).

Inductive completion : Type :=
  | Normal (v : value)
  | Throw (e : error).

(** A length or an index as a JavaScript number. *)
Definition number_of_nat (n : nat) : Qc := Q2Qc (inject_Z (Z.of_nat n)).

(** ** The data model *)

(** A game session, the object literal built by [addGame]. *)
Record game : Type := Game {
  id : string;
  gameName : string;
  buyIn : Qc;
  cashOut : Qc;
  stakes : string;
  gainLoss : Qc;
}.

(** Property assignments [game.f = v]. *)
Definition set_gameName (v : string) (g : game) : game :=
  Game (id g) v (buyIn g) (cashOut g) (stakes g) (gainLoss g).
Definition set_buyIn (v : Qc) (g : game) : game :=
  Game (id g) (gameName g) v (cashOut g) (stakes g) (gainLoss g).
Definition set_cashOut (v : Qc) (g : game) : game :=
  Game (id g) (gameName g) (buyIn g) v (stakes g) (gainLoss g).
Definition set_stakes (v : string) (g : game) : game :=
  Game (id g) (gameName g) (buyIn g) (cashOut g) v (gainLoss g).
Definition set_gainLoss (v : Qc) (g : game) : game :=
  Game (id g) (gameName g) (buyIn g) (cashOut g) (stakes g) v.

(** The argument [updatedData] of [updateGame]: each of the four fields the
    method reads is either supplied or [undefined] ([None]). *)
Module UpdatedData.
Record t : Type := Make {
  gameName : option string;
  buyIn : option Qc;
  cashOut : option Qc;
  stakes : option string;
}.
End UpdatedData.

(** The store and the tracker instance. *)
Record state : Type := State {
  objs : gmap loc game;            (* the session objects *)
  arrs : gmap loc (list loc);      (* the arrays of session references *)
  _games : loc;                    (* [this._games] *)
}.

(** Reading an array and an object through a reference.  A reference held by
    JavaScript code is never dangling; [wf] below says so for the tracker, and
    the defaults here are not reached from a well-formed store. *)
Definition array_at (st : state) (a : loc) : list loc :=
  default [] (arrs st !! a).

Definition deref (st : state) (l : loc) : option game := objs st !! l.

(** [new] for an array and for an object: a location not yet in use. *)
Definition alloc_array (ls : list loc) (st : state) : loc * state :=
  let a := fresh (dom (arrs st)) in
  (a, State (objs st) (<[a := ls]> (arrs st)) (_games st)).

Definition alloc_object (g : game) (st : state) : loc * state :=
  let l := fresh (dom (objs st)) in
  (l, State (<[l := g]> (objs st)) (arrs st) (_games st)).

(** [arr.push(l)]: the array is changed in place. *)
Definition push (a l : loc) (st : state) : state :=
  State (objs st) (alter (λ ls, ls ++ [l]) a (arrs st)) (_games st).

(** [obj.f = v], with the new value computed from the object itself. *)
Definition store (l : loc) (f : game → game) (st : state) : state :=
  State (alter f l (objs st)) (arrs st) (_games st).

(** [this._games = a]. *)
Definition set_games (a : loc) (st : state) : state :=
  State (objs st) (arrs st) a.

(** [x !== undefined]. *)
Definition defined {A : Type} (x : option A) : bool :=
  match x with Some _ => true | None => false end.

(** [Array.prototype.findIndex]: the first index whose element satisfies the
    predicate, [-1] when there is none. *)
Fixpoint findIndex_from {A : Type} (p : A → bool) (l : list A) (k : Z) : Z :=
  match l with
  | [] => (-1)%Z
  | x :: l' => if p x then k else findIndex_from p l' (k + 1)%Z
  end.

Definition findIndex {A : Type} (p : A → bool) (l : list A) : Z :=
  findIndex_from p l 0%Z.

(** ** The methods of [PokerStatTracker] *)

(** [_calculateGainLoss(buyIn, cashOut)], on exact amounts; the rounded
    difference of two doubles is [Doubles._calculateGainLoss]. *)
Definition _calculateGainLoss (buyIn cashOut : Qc) : Qc := (cashOut - buyIn)%Qc.

(** [_generateId()]: ['_' + Math.random().toString(36).substr(2, 9)], where
    [random36] is the text of [Math.random().toString(36)]. *)
Definition _generateId (random36 : string) : string :=
  String.append "_" (String.substring 2 9 random36).

(** [constructor()]: [this._games = []], in an empty store. *)
Definition constructor : state :=
  let '(a, st) := alloc_array [] (State ∅ ∅ 1%positive) in
  set_games a st.

(** The callbacks [game => game.id === id] of [updateGame] and
    [game => game.id !== id] of [deleteGame], on an element of the array. *)
Definition has_id (st : state) (id0 : string) (l : loc) : bool :=
  from_option (λ game, String.eqb (id game) id0) false (deref st l).

Definition has_other_id (st : state) (id0 : string) (l : loc) : bool :=
  from_option (λ game, negb (String.eqb (id game) id0)) true (deref st l).

(** [addGame(gameName, buyIn, cashOut, stakes)]. *)
Definition addGame (random36 : string) (gameName : string) (buyIn cashOut : Qc)
    (stakes : string) (st : state) : completion * state :=
  let game := Game (_generateId random36) gameName buyIn cashOut stakes
                   (_calculateGainLoss buyIn cashOut) in
  let '(l, st1) := alloc_object game st in
  (Normal VUndefined, push (_games st1) l st1).

(** [updateGame(id, updatedData)]. *)
Definition updateGame (id0 : string) (updatedData : UpdatedData.t) (st : state)
    : completion * state :=
  let index := findIndex (has_id st id0) (array_at st (_games st)) in
  if (index =? -1)%Z then (Throw (Error "Game session not found"), st)
  else
    match array_at st (_games st) !! Z.to_nat index with
    | None => (Throw TypeError, st)
    | Some game =>
      let st1 := match UpdatedData.gameName updatedData with
                 | Some v => store game (set_gameName v) st
                 | None => st
                 end in
      let st2 := match UpdatedData.buyIn updatedData with
                 | Some v => store game (set_buyIn v) st1
                 | None => st1
                 end in
      let st3 := match UpdatedData.cashOut updatedData with
                 | Some v => store game (set_cashOut v) st2
                 | None => st2
                 end in
      let st4 := match UpdatedData.stakes updatedData with
                 | Some v => store game (set_stakes v) st3
                 | None => st3
                 end in
      let st5 :=
        if defined (UpdatedData.buyIn updatedData)
           || defined (UpdatedData.cashOut updatedData)
        then store game
               (λ g, set_gainLoss (_calculateGainLoss (buyIn g) (cashOut g)) g) st4
        else st4 in
      (Normal VUndefined, st5)
    end.

(** [deleteGame(id)]: [filter] builds a new array, which replaces the old
    one in [this._games]. *)
Definition deleteGame (id0 : string) (st : state) : completion * state :=
  let kept := List.filter (has_other_id st id0) (array_at st (_games st)) in
  let '(a, st1) := alloc_array kept st in
  (Normal VUndefined, set_games a st1).

(** [clearGames()]. *)
Definition clearGames (st : state) : completion * state :=
  let '(a, st1) := alloc_array [] st in
  (Normal VUndefined, set_games a st1).

(** [getGames()]: [[...this._games]] is a new array with the same elements. *)
Definition getGames (st : state) : completion * state :=
  let '(a, st1) := alloc_array (array_at st (_games st)) st in
  (Normal (VRef a), st1).

(** [arr.reduce((total, game) => total + game.f, 0)], on exact amounts; the
    totals with each [+] rounded are [Doubles.getTotalGainLoss],
    [Doubles.getTotalBuyIn] and [Doubles.getTotalCashOut]. *)
Definition reduce_field (f : game → Qc) (st : state) (ls : list loc) : Qc :=
  fold_left (λ total l, (total + from_option f 0 (deref st l))%Qc) ls 0%Qc.

(** [getTotalGainLoss()]. *)
Definition getTotalGainLoss (st : state) : completion * state :=
  (Normal (VNumber (reduce_field gainLoss st (array_at st (_games st)))), st).

(** [getTotalGamesPlayed()]: [this._games.length]. *)
Definition getTotalGamesPlayed (st : state) : completion * state :=
  (Normal (VNumber (number_of_nat (length (array_at st (_games st))))), st).

(** [getTotalBuyIn()]. *)
Definition getTotalBuyIn (st : state) : completion * state :=
  (Normal (VNumber (reduce_field buyIn st (array_at st (_games st)))), st).

(** [getTotalCashOut()]. *)
Definition getTotalCashOut (st : state) : completion * state :=
  (Normal (VNumber (reduce_field cashOut st (array_at st (_games st)))), st).

(** ** What a caller can do with a reference it was handed

    [getGames] hands out a reference to an array whose elements are references
    to the session objects.  A caller can overwrite the array and can assign to
    the properties of an object it reaches. *)
Definition caller_writes_array (a : loc) (ls : list loc) (st : state) : state :=
  State (objs st) (<[a := ls]> (arrs st)) (_games st).

Definition caller_writes_object (l : loc) (f : game → game) (st : state) : state :=
  store l f st.

(** ** The ledger as its callers observe it *)

(** The records of the ledger, in the order of [this._games]. *)
Definition games_of (st : state) : list game :=
  omap (deref st) (array_at st (_games st)).

(** The tracker's array exists, holds live objects and holds no object
    twice. *)
Definition wf (st : state) : Prop :=
  is_Some (arrs st !! _games st)
  ∧ NoDup (array_at st (_games st))
  ∧ Forall (λ l, is_Some (deref st l)) (array_at st (_games st)).

(** The stores a program reaches through the methods of the class. *)
Inductive reachable : state → Prop :=
  | reach_constructor : reachable constructor
  | reach_addGame r n b c s st :
      reachable st → reachable (addGame r n b c s st).2
  | reach_updateGame i u st :
      reachable st → reachable (updateGame i u st).2
  | reach_deleteGame i st :
      reachable st → reachable (deleteGame i st).2
  | reach_clearGames st :
      reachable st → reachable (clearGames st).2
  | reach_getGames st :
      reachable st → reachable (getGames st).2.

(** The invariant of the data model on one record. *)
Definition gain_ok (g : game) : Prop :=
  gainLoss g = (cashOut g - buyIn g)%Qc.

(** The sum of a field over all records, as the aggregate queries are
    specified. *)
Fixpoint sum_of (f : game → Qc) (gs : list game) : Qc :=
  match gs with
  | [] => 0%Qc
  | g :: gs' => (f g + sum_of f gs')%Qc
  end.

(** The record an update is specified to leave behind: the supplied fields
    replace the old ones, and [gainLoss] is recomputed from the resulting
    [buyIn] and [cashOut] when one of the two is supplied. *)
Definition merged (u : UpdatedData.t) (g : game) : game :=
  let b := default (buyIn g) (UpdatedData.buyIn u) in
  let c := default (cashOut g) (UpdatedData.cashOut u) in
  Game (id g)
       (default (gameName g) (UpdatedData.gameName u))
       b c
       (default (stakes g) (UpdatedData.stakes u))
       (if defined (UpdatedData.buyIn u) || defined (UpdatedData.cashOut u)
        then (c - b)%Qc else gainLoss g).

Instance wf_dec (st : state) : Decision (wf st).
Proof. unfold wf, deref. apply _. Defined.

(** ** Example ledgers *)

Definition num (z : Z) : Qc := Q2Qc (inject_Z z).

(** [addGame("Friday Game", 100, 150, "1/2")] on a new tracker. *)
Definition friday : state :=
  (addGame "0.4fzyo82mvyr" "Friday Game" (num 100) (num 150) "1/2" constructor).2.

(** ... followed by [addGame("Saturday Game", 200, 180, "2/5")]. *)
Definition friday_saturday : state :=
  (addGame "0.k3x9q0a7bc1" "Saturday Game" (num 200) (num 180) "2/5" friday).2.

(** ... followed by [updateGame("_4fzyo82mv", { buyIn: 120 })]. *)
Definition friday_rebought : state :=
  (updateGame "_4fzyo82mv" (UpdatedData.Make None (Some (num 120)) None None)
              friday_saturday).2.

(** Closed decidable facts, by evaluation. *)
Ltac by_evaluation :=
  match goal with
  | |- ?P => apply (bool_decide_unpack P); vm_compute; exact I
  end.

(** ** The ledger with IEEE doubles

    A JavaScript number is a binary64 double, and [+] and [-] round.  This
    module reads the methods of the class with Rocq's primitive floats (the
    same binary64 arithmetic) for [buyIn], [cashOut] and [gainLoss].  The
    ledger is the list of the records of [this._games]: the store model above
    shows that in every reachable store the tracker's array holds each record
    once and that each method acts on that list as written here. *)
Module Doubles.
Import PrimFloat.

Record game : Type := Game {
  id : string;
  gameName : string;
  buyIn : float;
  cashOut : float;
  stakes : string;
  gainLoss : float;
}.

Definition set_gameName (v : string) (g : game) : game :=
  Game (id g) v (buyIn g) (cashOut g) (stakes g) (gainLoss g).
Definition set_buyIn (v : float) (g : game) : game :=
  Game (id g) (gameName g) v (cashOut g) (stakes g) (gainLoss g).
Definition set_cashOut (v : float) (g : game) : game :=
  Game (id g) (gameName g) (buyIn g) v (stakes g) (gainLoss g).
Definition set_stakes (v : string) (g : game) : game :=
  Game (id g) (gameName g) (buyIn g) (cashOut g) v (gainLoss g).
Definition set_gainLoss (v : float) (g : game) : game :=
  Game (id g) (gameName g) (buyIn g) (cashOut g) (stakes g) v.

Module UpdatedData.
Record t : Type := Make {
  gameName : option string;
  buyIn : option float;
  cashOut : option float;
  stakes : option string;
}.
End UpdatedData.

(** [_calculateGainLoss(buyIn, cashOut)]: the rounded difference. *)
Definition _calculateGainLoss (buyIn cashOut : float) : float :=
  (cashOut - buyIn)%float.

(** [addGame(gameName, buyIn, cashOut, stakes)]. *)
Definition addGame (random36 : string) (gameName : string) (buyIn cashOut : float)
    (stakes : string) (games : list game) : completion * list game :=
  let game := Game (_generateId random36) gameName buyIn cashOut stakes
                   (_calculateGainLoss buyIn cashOut) in
  (Normal VUndefined, games ++ [game]).

(** [updateGame(id, updatedData)]. *)
Definition updateGame (id0 : string) (updatedData : UpdatedData.t)
    (games : list game) : completion * list game :=
  let index := findIndex (λ game, String.eqb (id game) id0) games in
  if (index =? -1)%Z then (Throw (Error "Game session not found"), games)
  else
    match games !! Z.to_nat index with
    | None => (Throw TypeError, games)
    | Some game =>
      let game1 := match UpdatedData.gameName updatedData with
                   | Some v => set_gameName v game
                   | None => game
                   end in
      let game2 := match UpdatedData.buyIn updatedData with
                   | Some v => set_buyIn v game1
                   | None => game1
                   end in
      let game3 := match UpdatedData.cashOut updatedData with
                   | Some v => set_cashOut v game2
                   | None => game2
                   end in
      let game4 := match UpdatedData.stakes updatedData with
                   | Some v => set_stakes v game3
                   | None => game3
                   end in
      let game5 :=
        if defined (UpdatedData.buyIn updatedData)
           || defined (UpdatedData.cashOut updatedData)
        then set_gainLoss (_calculateGainLoss (buyIn game4) (cashOut game4)) game4
        else game4 in
      (Normal VUndefined, <[Z.to_nat index := game5]> games)
    end.

(** [deleteGame(id)]. *)
Definition deleteGame (id0 : string) (games : list game) : completion * list game :=
  (Normal VUndefined, List.filter (λ game, negb (String.eqb (id game) id0)) games).

(** [clearGames()]. *)
Definition clearGames (games : list game) : completion * list game :=
  (Normal VUndefined, []).

(** [getTotalGainLoss()], [getTotalBuyIn()] and [getTotalCashOut()]:
    [reduce((total, game) => total + game.f, 0)], each [+] rounded. *)
Definition getTotalGainLoss (games : list game) : float :=
  fold_left (λ total game, (total + gainLoss game)%float) games 0%float.

Definition getTotalBuyIn (games : list game) : float :=
  fold_left (λ total game, (total + buyIn game)%float) games 0%float.

Definition getTotalCashOut (games : list game) : float :=
  fold_left (λ total game, (total + cashOut game)%float) games 0%float.

(** The ledgers reached through the methods. *)
Inductive reachable : list game → Prop :=
  | reach_constructor : reachable []
  | reach_addGame r n b c s games :
      reachable games → reachable (addGame r n b c s games).2
  | reach_updateGame i u games :
      reachable games → reachable (updateGame i u games).2
  | reach_deleteGame i games :
      reachable games → reachable (deleteGame i games).2
  | reach_clearGames games :
      reachable games → reachable (clearGames games).2.

(** The number a double stands for; none for an infinity or NaN. *)
Definition value (x : float) : option Qc :=
  match FloatOps.Prim2SF x with
  | SpecFloat.S754_zero _ => Some 0%Qc
  | SpecFloat.S754_finite s m e =>
      Some (Q2Qc ((if s then -1 else 1) * inject_Z (Z.pos m) * Qpower 2 e))
  | _ => None
  end.

(** The double [r] is finite and stands for exactly the number [q]. *)
Definition exactly (r : float) (q : option Qc) : Prop :=
  is_Some q ∧ value r = q.

(** [x + y] and [x - y] on finite doubles, without rounding or overflow. *)
Definition add_exact (x y : float) : Prop :=
  exactly (x + y)%float (a ← value x; b ← value y; Some (a + b)%Qc).

Definition sub_exact (x y : float) : Prop :=
  exactly (x - y)%float (a ← value x; b ← value y; Some (a - b)%Qc).

(** Every addition of [reduce((total, game) => total + game.f, acc)] is
    exact. *)
Fixpoint adds_exact (f : game → float) (acc : float) (games : list game) : Prop :=
  match games with
  | [] => True
  | game :: rest =>
      add_exact acc (f game) ∧ adds_exact f (acc + f game)%float rest
  end.

(** No subtraction [cashOut - buyIn] of the records in the ledger and no
    addition of the three totals rounds. *)
Definition no_rounding (games : list game) : Prop :=
  Forall (λ game, sub_exact (cashOut game) (buyIn game)) games
  ∧ adds_exact gainLoss 0%float games
  ∧ adds_exact buyIn 0%float games
  ∧ adds_exact cashOut 0%float games.

(** The sum of the numbers that a field of the records stands for. *)
Fixpoint value_sum (f : game → float) (games : list game) : Qc :=
  match games with
  | [] => 0%Qc
  | game :: rest => (default 0%Qc (value (f game)) + value_sum f rest)%Qc
  end.

Instance exactly_dec (r : float) (q : option Qc) : Decision (exactly r q).
Proof. unfold exactly. apply _. Defined.

Instance adds_exact_dec (f : game → float) (acc : float) (games : list game) :
  Decision (adds_exact f acc games).
Proof.
  revert acc. induction games as [|game rest IH]; intros acc; simpl.
  - apply _.
  - unfold add_exact. apply and_dec; [apply _ | apply IH].
Defined.

Instance no_rounding_dec (games : list game) : Decision (no_rounding games).
Proof. unfold no_rounding, sub_exact. apply _. Defined.

(** The doubles nearest to 0.1 and 0.2, as [parseFloat] returns them. *)
#[warnings="-inexact-float"]
Definition tenth : float := 0.1%float.
#[warnings="-inexact-float"]
Definition two_tenths : float := 0.2%float.

(** [addGame("Friday Game", 0.1, 0.1, "1/2")] and
    [addGame("Saturday Game", 0.1, 0.2, "2/5")] on a new tracker. *)
Definition small_stakes : list game :=
  (addGame "0.k3x9q0a7bc1" "Saturday Game" tenth two_tenths "2/5"
     (addGame "0.4fzyo82mvyr" "Friday Game" tenth tenth "1/2" []).2).2.

(** [addGame("Friday Game", 100, 150, "1/2")],
    [addGame("Saturday Game", 200, 180, "2/5")] and
    [updateGame("_4fzyo82mv", { buyIn: 120 })]. *)
Definition whole_amounts : list game :=
  (updateGame "_4fzyo82mv" (UpdatedData.Make None (Some 120%float) None None)
     (addGame "0.k3x9q0a7bc1" "Saturday Game" 200%float 180%float "2/5"
        (addGame "0.4fzyo82mvyr" "Friday Game" 100%float 150%float "1/2" []).2).2).2.

End Doubles.

(** ** The page [StatsPage] ([src/src/App.jsx])

    The page keeps one tracker and the React state [games], the array last
    passed to [setGames]; the table shows the elements of [games] and the
    footer asks the tracker for its totals.  The text kept in [localStorage],
    the form fields and [parseFloat] are outside the embedding: the handlers
    below receive what [JSON.parse] and [parseFloat] return. *)
Module StatsPage.

(** What the load effect finds under the storage key: nothing (or the empty
    text); a text that [JSON.parse] rejects; a text that parses to a value
    without [forEach] ([null], a number, a string, a boolean, an object); or
    an array, each element of which is a session record or [null].  Elements
    of other shapes are outside the embedding. *)
Inductive saved : Type :=
  | NoItem
  | Malformed
  | NotAnArray
  | Parsed (parsedGames : list (option game)).

(** The tracker with its store, and [games]. *)
Record page : Type := Page {
  tracker : state;
  games : loc;
}.

(** [useState(new PokerStatTracker())] and [useState([])]. *)
Definition mount : page :=
  let '(a, st) := alloc_array [] constructor in
  Page st a.

(** [setGames(tracker.getGames())], given the completion of [getGames]. *)
Definition setGames (c : completion * state) (p : page) : page :=
  match c with
  | (Normal (VRef a), st) => Page st a
  | (_, st) => Page st (games p)
  end.

(** [parsedGames.forEach(game => tracker.addGame(game.gameName, game.buyIn,
    game.cashOut, game.stakes))]; [random36 k] is the text drawn by the call
    of [Math.random] for element [k].  Reading [game.gameName] of a [null]
    element throws, and [forEach] stops there. *)
Fixpoint forEach_addGame (random36 : nat → string) (k : nat)
    (parsedGames : list (option game)) (st : state) : completion * state :=
  match parsedGames with
  | [] => (Normal VUndefined, st)
  | None :: _ => (Throw TypeError, st)
  | Some game :: rest =>
      forEach_addGame random36 (S k) rest
        (addGame (random36 k) (gameName game) (buyIn game) (cashOut game)
                 (stakes game) st).2
  end.

(** The effect that loads the saved games, run once after the page is
    mounted.  [JSON.parse] runs before the tracker is touched, so a rejected
    text leaves the page as it is.  An error thrown later in the [try] block,
    by [parsedGames.forEach] itself or by its callback, is caught after
    [clearGames] and the calls of [addGame] made so far, and [setGames] is
    skipped. *)
Definition loadEffect (random36 : nat → string) (savedGames : saved) (p : page)
    : page :=
  match savedGames with
  | NoItem => p
  | Malformed => p
  | NotAnArray => Page (clearGames (tracker p)).2 (games p)
  | Parsed parsedGames =>
      let st1 := (clearGames (tracker p)).2 in
      match forEach_addGame random36 0 parsedGames st1 with
      | (Normal _, st2) => setGames (getGames st2) p
      | (Throw _, st2) => Page st2 (games p)
      end
  end.

(** [handleAddGame], with [buyIn] and [cashOut] as [parseFloat] returned
    them. *)
Definition handleAddGame (random36 : string) (gameName : string)
    (buyIn cashOut : Qc) (stakes : string) (p : page) : page :=
  let st1 := (addGame random36 gameName buyIn cashOut stakes (tracker p)).2 in
  setGames (getGames st1) p.

(** [handleClearData]. *)
Definition handleClearData (p : page) : page :=
  let st1 := (clearGames (tracker p)).2 in
  setGames (getGames st1) p.

(** The rows of the table: [games.map(game => <tr> ... </tr>)]. *)
Definition rows (p : page) : list game :=
  omap (deref (tracker p)) (array_at (tracker p) (games p)).

(** The pages a user sees, given what the storage held when the page was
    mounted: the first render, the page after the load effect, and the pages
    after the handlers. *)
Inductive shown (random36 : nat → string) (savedGames : saved) : page → Prop :=
  | shown_mount : shown random36 savedGames mount
  | shown_loadEffect :
      shown random36 savedGames (loadEffect random36 savedGames mount)
  | shown_handleAddGame r n b c s p :
      shown random36 savedGames p →
      shown random36 savedGames (handleAddGame r n b c s p)
  | shown_handleClearData p :
      shown random36 savedGames p →
      shown random36 savedGames (handleClearData p).

(** The saved item does not make the [try] block of the load effect throw
    after [JSON.parse]: it is absent, rejected by [JSON.parse], or an array of
    session records. *)
Definition loads_fully (savedGames : saved) : Prop :=
  match savedGames with
  | NoItem => True
  | Malformed => True
  | NotAnArray => False
  | Parsed parsedGames => Forall is_Some parsedGames
  end.

(** The records of a parsed array up to its first [null]. *)
Fixpoint before_null (parsedGames : list (option game)) : list game :=
  match parsedGames with
  | Some game :: rest => game :: before_null rest
  | _ => []
  end.

End StatsPage.

(** The record [addGame] builds when a saved record is replayed with the
    draw [r]: the saved id and the saved [gainLoss] are not read. *)
Definition replayed (r : string) (g : game) : game :=
  Game (_generateId r) (gameName g) (buyIn g) (cashOut g) (stakes g)
       (cashOut g - buyIn g)%Qc.

(** What every page a user reaches satisfies. *)
Definition page_ok (p : StatsPage.page) : Prop :=
  wf (StatsPage.tracker p)
  ∧ StatsPage.rows p = games_of (StatsPage.tracker p)
  ∧ Forall gain_ok (games_of (StatsPage.tracker p)).

(** A sequence of draws for the examples. *)
Definition draws (k : nat) : string :=
  match k with
  | 0 => "0.9zk1m4q7wd2"
  | 1 => "0.c81hs5t0xve"
  | _ => "0.j5n2r8a3pfu"
  end.

(** ** Lemmas on the array primitives *)

Section findIndex_facts.
Context {A : Type} (p : A → bool).

Lemma findIndex_from_none (l : list A) (k : Z) :
  Forall (λ x, p x = false) l → findIndex_from p l k = (-1)%Z.
Proof.
  intros H. revert k. induction H as [|x l Hx _ IH]; intros k; simpl.
  - done.
  - by rewrite Hx.
Qed.

Lemma findIndex_from_found (l : list A) (k : Z) :
  (0 ≤ k)%Z → findIndex_from p l k ≠ (-1)%Z →
  ∃ (j : nat) (x : A),
    findIndex_from p l k = (k + Z.of_nat j)%Z
    ∧ l !! j = Some x ∧ p x = true
    ∧ Forall (λ y, p y = false) (take j l).
Proof.
  revert k. induction l as [|x l IH]; intros k Hk; simpl.
  - done.
  - destruct (p x) eqn:Hx.
    + intros _. exists 0%nat, x. repeat split; [lia | done | constructor].
    + intros Hne. destruct (IH (k + 1)%Z ltac:(lia) Hne) as (j & y & E & Hj & Hy & Hbefore).
      exists (S j), y. repeat split; [lia | done | done |].
      simpl. by constructor.
Qed.

End findIndex_facts.

Lemma omap_cons {A B : Type} (f : A → option B) (x : A) (l : list A) :
  omap f (x :: l) = match f x with Some y => y :: omap f l | None => omap f l end.
Proof. reflexivity. Qed.

Lemma omap_lookup_live {A B : Type} (f : A → option B) (l : list A) (k : nat) :
  Forall (λ x, is_Some (f x)) l → omap f l !! k = l !! k ≫= f.
Proof.
  intros H. revert k. induction H as [|x l [y Hy] _ IH]; intros k.
  - done.
  - rewrite omap_cons, Hy. destruct k as [|k]; simpl; [done | apply IH].
Qed.

Lemma omap_length_live {A B : Type} (f : A → option B) (l : list A) :
  Forall (λ x, is_Some (f x)) l → length (omap f l) = length l.
Proof.
  induction 1 as [|x l [y Hy] _ IH]; [done |].
  rewrite omap_cons, Hy. simpl. by f_equal.
Qed.

Lemma omap_ext_in {A B : Type} (f g : A → option B) (l : list A) :
  Forall (λ x, f x = g x) l → omap f l = omap g l.
Proof.
  induction 1 as [|x l Hx _ IH]; [done |]. by rewrite !omap_cons, Hx, IH.
Qed.

Lemma omap_filter_id {A B : Type} (f : A → option B) (p : A → bool) (q : B → bool)
    (l : list A) :
  (∀ x y, f x = Some y → p x = q y) →
  (∀ x, f x = None → p x = true) →
  omap f (List.filter p l) = List.filter q (omap f l).
Proof.
  intros Hpq Hnone. induction l as [|x l IH]; [done |].
  rewrite omap_cons. simpl. destruct (f x) as [y|] eqn:Hy.
  - rewrite (Hpq x y Hy). simpl. destruct (q y); [by rewrite omap_cons, Hy, IH | done].
  - rewrite (Hnone x Hy). by rewrite omap_cons, Hy.
Qed.

(** ** Well-formedness is kept by every method *)

Lemma array_at_insert_eq o ar g (a : loc) (ls : list loc) :
  array_at (State o (<[a := ls]> ar) g) a = ls.
Proof. unfold array_at; simpl. by rewrite lookup_insert_eq. Qed.

Lemma fresh_object_unused (st : state) :
  wf st → fresh (dom (objs st)) ∉ array_at st (_games st).
Proof.
  intros (_ & _ & Hlive) Hin.
  rewrite Forall_forall in Hlive. apply Hlive in Hin.
  unfold deref in Hin. apply elem_of_dom in Hin. by apply is_fresh in Hin.
Qed.

Lemma fresh_array_unused (st : state) :
  is_Some (arrs st !! _games st) → fresh (dom (arrs st)) ≠ _games st.
Proof.
  intros H E. apply elem_of_dom in H. rewrite <- E in H. by apply is_fresh in H.
Qed.

Lemma wf_constructor : wf constructor.
Proof.
  unfold wf, constructor, alloc_array, set_games, array_at; simpl.
  rewrite lookup_insert_eq. simpl. repeat split; [by eexists | constructor | constructor].
Qed.

Lemma games_of_constructor : games_of constructor = [].
Proof.
  unfold games_of, constructor, alloc_array, set_games, array_at; simpl.
  by rewrite lookup_insert_eq.
Qed.

(** The store after [addGame], spelled out. *)
Lemma addGame_state r n b c s st :
  (addGame r n b c s st).2
  = State (<[fresh (dom (objs st)) :=
               Game (_generateId r) n b c s (_calculateGainLoss b c)]> (objs st))
          (alter (λ ls, ls ++ [fresh (dom (objs st))]) (_games st) (arrs st))
          (_games st).
Proof. reflexivity. Qed.

Lemma addGame_array r n b c s st :
  wf st →
  array_at (addGame r n b c s st).2 (_games (addGame r n b c s st).2)
  = array_at st (_games st) ++ [fresh (dom (objs st))].
Proof.
  intros ([ls Hls] & _ & _). rewrite addGame_state. unfold array_at; simpl.
  by rewrite lookup_alter_eq, Hls.
Qed.

Lemma addGame_wf r n b c s st : wf st → wf (addGame r n b c s st).2.
Proof.
  intros Hwf. pose proof (fresh_object_unused st Hwf) as Hfresh.
  pose proof (addGame_array r n b c s st Hwf) as Harr.
  destruct Hwf as (Hsome & Hnodup & Hlive).
  unfold wf. rewrite Harr. rewrite addGame_state; simpl. repeat split.
  - rewrite lookup_alter_eq. destruct Hsome as [ls ->]. by eexists.
  - apply NoDup_app. repeat split; [done | | apply NoDup_singleton].
    intros x Hx Hin. apply list_elem_of_singleton in Hin. by subst.
  - apply Forall_app. split.
    + eapply Forall_impl; [exact Hlive |]. intros l Hl. unfold deref in *; simpl.
      apply lookup_insert_is_Some'. by right.
    + constructor; [| constructor]. unfold deref; simpl.
      rewrite lookup_insert_eq. by eexists.
Qed.

Lemma addGame_games r n b c s st :
  wf st →
  games_of (addGame r n b c s st).2
  = games_of st ++ [Game (_generateId r) n b c s (c - b)%Qc].
Proof.
  intros Hwf. pose proof (fresh_object_unused st Hwf) as Hfresh.
  unfold games_of. rewrite (addGame_array r n b c s st Hwf).
  rewrite addGame_state. rewrite omap_app. f_equal.
  - apply omap_ext_in. apply Forall_forall. intros l Hl. unfold deref; simpl.
    apply lookup_insert_ne. intros E. by rewrite E in Hfresh.
  - rewrite omap_cons. unfold deref; simpl. by rewrite lookup_insert_eq.
Qed.

(** [filter] with a boolean callback, as stdpp's [filter]. *)
Lemma List_filter_stdpp {A : Type} (p : A → bool) (l : list A) :
  List.filter p l = filter (λ x, p x = true) l.
Proof.
  induction l as [|x l IH]; [done |].
  rewrite filter_cons. simpl. rewrite IH.
  destruct (p x); case_decide; done.
Qed.

Lemma deleteGame_state i st :
  (deleteGame i st).2
  = State (objs st)
          (<[fresh (dom (arrs st)) :=
               List.filter (has_other_id st i) (array_at st (_games st))]> (arrs st))
          (fresh (dom (arrs st))).
Proof. reflexivity. Qed.

Lemma deleteGame_array i st :
  array_at (deleteGame i st).2 (_games (deleteGame i st).2)
  = List.filter (has_other_id st i) (array_at st (_games st)).
Proof.
  rewrite deleteGame_state. unfold array_at at 1; simpl. by rewrite lookup_insert_eq.
Qed.

Lemma deleteGame_games i st :
  games_of (deleteGame i st).2 = filter (λ g, id g ≠ i) (games_of st).
Proof.
  unfold games_of. rewrite deleteGame_array.
  rewrite (omap_filter_id _ _ (λ g, negb (String.eqb (id g) i))).
  - rewrite List_filter_stdpp. apply list_filter_iff. intros g.
    rewrite negb_true_iff. apply String.eqb_neq.
  - intros l g Hg. unfold has_other_id, deref in *.
    rewrite deleteGame_state in Hg; simpl in Hg. by rewrite Hg.
  - intros l Hl. unfold has_other_id, deref in *.
    rewrite deleteGame_state in Hl; simpl in Hl. by rewrite Hl.
Qed.

Lemma deleteGame_wf i st : wf st → wf (deleteGame i st).2.
Proof.
  intros (Hsome & Hnodup & Hlive). unfold wf. rewrite deleteGame_array.
  rewrite List_filter_stdpp. repeat split.
  - rewrite deleteGame_state; simpl. rewrite lookup_insert_eq. by eexists.
  - by apply NoDup_filter.
  - apply Forall_forall. intros l Hl. apply list_elem_of_filter in Hl as [_ Hl].
    rewrite Forall_forall in Hlive. exact (Hlive l Hl).
Qed.

Lemma clearGames_state st :
  (clearGames st).2
  = State (objs st) (<[fresh (dom (arrs st)) := []]> (arrs st)) (fresh (dom (arrs st))).
Proof. reflexivity. Qed.

Lemma clearGames_games st : games_of (clearGames st).2 = [].
Proof.
  unfold games_of, array_at. rewrite clearGames_state; simpl.
  by rewrite lookup_insert_eq.
Qed.

Lemma clearGames_wf st : wf (clearGames st).2.
Proof.
  unfold wf, array_at. rewrite clearGames_state; simpl. rewrite lookup_insert_eq; simpl.
  repeat split; [by eexists | constructor | constructor].
Qed.

Lemma getGames_state st :
  getGames st
  = (Normal (VRef (fresh (dom (arrs st)))),
     State (objs st) (<[fresh (dom (arrs st)) := array_at st (_games st)]> (arrs st))
           (_games st)).
Proof. reflexivity. Qed.

Lemma getGames_array st :
  is_Some (arrs st !! _games st) →
  array_at (getGames st).2 (_games (getGames st).2) = array_at st (_games st).
Proof.
  intros H. rewrite getGames_state. unfold array_at; simpl.
  rewrite lookup_insert_ne; [done |]. by apply fresh_array_unused.
Qed.

Lemma getGames_games st : wf st → games_of (getGames st).2 = games_of st.
Proof.
  intros (Hsome & _ & _). unfold games_of. by rewrite getGames_array.
Qed.

Lemma getGames_wf st : wf st → wf (getGames st).2.
Proof.
  intros (Hsome & Hnodup & Hlive). unfold wf. rewrite getGames_array by done.
  repeat split; [| done | done].
  rewrite getGames_state; simpl. rewrite lookup_insert_ne; [done |].
  by apply fresh_array_unused.
Qed.

(** ** [updateGame] *)

Lemma updateGame_not_found i u st :
  Forall (λ g, id g ≠ i) (games_of st) →
  updateGame i u st = (Throw (Error "Game session not found"), st).
Proof.
  intros Hno. unfold updateGame, findIndex.
  rewrite findIndex_from_none; [done |].
  apply Forall_forall. intros l Hl.
  unfold has_id. destruct (deref st l) as [g|] eqn:Hg; simpl; [| done].
  apply String.eqb_neq. rewrite Forall_forall in Hno. apply Hno.
  unfold games_of. apply list_elem_of_omap. eauto.
Qed.

(** The five conditional assignments amount to one assignment of the merged
    record. *)
Lemma updateGame_at i u st (j : nat) (l : loc) :
  findIndex (has_id st i) (array_at st (_games st)) = Z.of_nat j →
  array_at st (_games st) !! j = Some l →
  updateGame i u st
  = (Normal VUndefined, State (alter (merged u) l (objs st)) (arrs st) (_games st)).
Proof.
  intros Hidx Hl. unfold updateGame. rewrite Hidx.
  replace (Z.of_nat j =? -1)%Z with false by (symmetry; apply Z.eqb_neq; lia).
  rewrite Nat2Z.id, Hl. f_equal.
  destruct u as [[n|] [b|] [c|] [s|]]; unfold store; simpl;
    rewrite ?alter_alter_eq;
    try (f_equal; apply alter_ext; intros [] _; reflexivity).
  destruct st as [o a g]; simpl. f_equal. symmetry. apply alter_id.
  intros [] _; reflexivity.
Qed.

Lemma findIndex_from_none_inv {A : Type} (p : A → bool) (l : list A) (k : Z) :
  (0 ≤ k)%Z → findIndex_from p l k = (-1)%Z → Forall (λ x, p x = false) l.
Proof.
  revert k. induction l as [|x l IH]; intros k Hk; simpl; [constructor |].
  destruct (p x) eqn:Hx; [lia |].
  intros H. constructor; [done |]. apply (IH (k + 1)%Z); [lia | done].
Qed.

Lemma omap_take_live {A B : Type} (f : A → option B) (l : list A) (j : nat) :
  Forall (λ x, is_Some (f x)) l → take j (omap f l) = omap f (take j l).
Proof.
  intros H. revert j. induction H as [|x l [y Hy] _ IH]; intros j.
  - by destruct j.
  - destruct j as [|j]; [done |]. simpl take.
    rewrite !omap_cons, Hy. simpl. by rewrite IH.
Qed.

Lemma has_id_true st i l :
  has_id st i l = true ↔ ∃ g, deref st l = Some g ∧ id g = i.
Proof.
  unfold has_id. destruct (deref st l) as [g|]; simpl.
  - rewrite String.eqb_eq. split.
    + intros E. by exists g.
    + intros (g' & [= <-] & E). exact E.
  - split; [done |]. by intros (g' & [=] & _).
Qed.

Lemma has_id_false_games st i ls :
  Forall (λ l, has_id st i l = false) ls →
  Forall (λ g, id g ≠ i) (omap (deref st) ls).
Proof.
  intros H. apply Forall_forall. intros g Hg.
  apply list_elem_of_omap in Hg as (l & Hl & Hg).
  rewrite Forall_forall in H. specialize (H l Hl).
  unfold has_id in H. rewrite Hg in H. simpl in H. by apply String.eqb_neq.
Qed.

(** An assignment to the object at position [j] of the tracker's array
    replaces record [j] of the ledger and no other. *)
Lemma games_of_alter (F : game → game) st (j : nat) (l : loc) (g0 : game) :
  wf st →
  array_at st (_games st) !! j = Some l →
  deref st l = Some g0 →
  games_of (State (alter F l (objs st)) (arrs st) (_games st))
  = <[j := F g0]> (games_of st).
Proof.
  intros (Hsome & Hnodup & Hlive) Hj Hg0.
  unfold games_of, array_at in *; simpl.
  set (ls := default [] (arrs st !! _games st)) in *.
  assert (Hlive' : Forall (λ x, is_Some
            (deref (State (alter F l (objs st)) (arrs st) (_games st)) x)) ls).
  { eapply Forall_impl; [exact Hlive |]. intros x Hx. unfold deref in *; simpl.
    by apply lookup_alter_is_Some. }
  apply list_eq. intros k.
  rewrite (omap_lookup_live _ _ _ Hlive').
  destruct (decide (k = j)) as [-> | Hne].
  - rewrite list_lookup_insert_eq.
    + rewrite Hj; simpl. unfold deref in *; simpl.
      by rewrite lookup_alter_eq, Hg0.
    + rewrite (omap_length_live _ _ Hlive). by eapply lookup_lt_Some.
  - rewrite list_lookup_insert_ne by done.
    rewrite (omap_lookup_live _ _ _ Hlive).
    destruct (ls !! k) as [l'|] eqn:Hk; simpl; [| done].
    unfold deref; simpl. apply lookup_alter_ne.
    intros <-. apply Hne. by eapply NoDup_lookup.
Qed.

(** The two outcomes of [updateGame] on a well-formed store. *)
Lemma updateGame_cases i u st :
  wf st →
  (Forall (λ g, id g ≠ i) (games_of st)
   ∧ updateGame i u st = (Throw (Error "Game session not found"), st))
  ∨ (∃ (j : nat) (l : loc) (g0 : game),
       array_at st (_games st) !! j = Some l
       ∧ deref st l = Some g0 ∧ id g0 = i
       ∧ Forall (λ g, id g ≠ i) (take j (games_of st))
       ∧ updateGame i u st
         = (Normal VUndefined,
            State (alter (merged u) l (objs st)) (arrs st) (_games st))).
Proof.
  intros (Hsome & Hnodup & Hlive).
  destruct (decide (findIndex (has_id st i) (array_at st (_games st)) = (-1)%Z))
    as [Hnone | Hfound].
  - left. apply findIndex_from_none_inv in Hnone; [| lia].
    apply has_id_false_games in Hnone. split; [done |].
    by apply updateGame_not_found.
  - right. apply findIndex_from_found in Hfound as (j & l & Hidx & Hj & Hp & Hbefore);
      [| lia].
    apply has_id_true in Hp as (g0 & Hg0 & Hid).
    exists j, l, g0. repeat split; try done.
    + unfold games_of. rewrite omap_take_live by done.
      by apply has_id_false_games.
    + apply (updateGame_at i u st j l); [| done]. unfold findIndex. rewrite Hidx. lia.
Qed.

Lemma updateGame_wf i u st : wf st → wf (updateGame i u st).2.
Proof.
  intros Hwf.
  destruct (updateGame_cases i u st Hwf) as [[_ ->] | (j & l & g0 & _ & _ & _ & _ & ->)];
    [done |].
  destruct Hwf as (Hsome & Hnodup & Hlive). unfold wf, array_at in *; simpl.
  repeat split; try done.
  eapply Forall_impl; [exact Hlive |]. intros x Hx. unfold deref in *; simpl.
  by apply lookup_alter_is_Some.
Qed.

Lemma reachable_wf st : reachable st → wf st.
Proof.
  induction 1;
    eauto using wf_constructor, addGame_wf, updateGame_wf, deleteGame_wf,
                clearGames_wf, getGames_wf.
Qed.

(** The ledger after [updateGame], on a well-formed store: either no record
    has the id and the call throws without a change, or the first record with
    the id is replaced by its merge with the supplied fields. *)
Lemma updateGame_view i u st :
  wf st →
  (Forall (λ g, id g ≠ i) (games_of st)
   ∧ updateGame i u st = (Throw (Error "Game session not found"), st))
  ∨ (∃ (j : nat) (g0 : game),
       games_of st !! j = Some g0 ∧ id g0 = i
       ∧ Forall (λ g, id g ≠ i) (take j (games_of st))
       ∧ (updateGame i u st).1 = Normal VUndefined
       ∧ games_of (updateGame i u st).2 = <[j := merged u g0]> (games_of st)).
Proof.
  intros Hwf.
  destruct (updateGame_cases i u st Hwf)
    as [H | (j & l & g0 & Hj & Hg0 & Hid & Hbefore & Hupd)]; [by left | right].
  exists j, g0. rewrite Hupd; simpl. repeat split; try done.
  - destruct Hwf as (_ & _ & Hlive). unfold games_of.
    rewrite omap_lookup_live by done. by rewrite Hj.
  - by apply games_of_alter.
Qed.

(** ** The aggregate queries *)

Lemma fold_left_reduce (f : game → Qc) st (ls : list loc) (acc : Qc) :
  fold_left (λ total l, (total + from_option f 0 (deref st l))%Qc) ls acc
  = (acc + sum_of f (omap (deref st) ls))%Qc.
Proof.
  revert acc. induction ls as [|l ls IH]; intros acc; simpl fold_left.
  - simpl. ring.
  - rewrite IH, omap_cons. destruct (deref st l) as [g|]; simpl; ring.
Qed.

Lemma reduce_field_sum (f : game → Qc) st :
  reduce_field f st (array_at st (_games st)) = sum_of f (games_of st).
Proof. unfold reduce_field, games_of. rewrite fold_left_reduce. ring. Qed.

(** ** The invariant [gainLoss = cashOut - buyIn] *)

Lemma gain_ok_merged u g : gain_ok g → gain_ok (merged u g).
Proof.
  unfold gain_ok, merged. intros Hg.
  destruct u as [n [b|] [c|] s]; simpl; try reflexivity. exact Hg.
Qed.

Lemma gain_ok_addGame r n b c s st :
  wf st → Forall gain_ok (games_of st) →
  Forall gain_ok (games_of (addGame r n b c s st).2).
Proof.
  intros Hwf Hinv. rewrite addGame_games by done.
  apply Forall_app. split; [done |]. by repeat constructor.
Qed.

Lemma gain_ok_updateGame i u st :
  wf st → Forall gain_ok (games_of st) →
  Forall gain_ok (games_of (updateGame i u st).2).
Proof.
  intros Hwf Hinv.
  destruct (updateGame_view i u st Hwf)
    as [[_ ->] | (j & g0 & Hj & _ & _ & _ & ->)]; [done |].
  apply Forall_insert; [done |]. apply gain_ok_merged.
  rewrite Forall_forall in Hinv. apply Hinv. by eapply list_elem_of_lookup_2.
Qed.

Lemma gain_ok_deleteGame i st :
  Forall gain_ok (games_of st) → Forall gain_ok (games_of (deleteGame i st).2).
Proof.
  intros Hinv. rewrite deleteGame_games. apply Forall_forall. intros g Hg.
  apply list_elem_of_filter in Hg as [_ Hg].
  rewrite Forall_forall in Hinv. by apply Hinv.
Qed.

Lemma gain_ok_reachable st : reachable st → Forall gain_ok (games_of st).
Proof.
  induction 1 as [| r n b c s st Hst IH | i u st Hst IH | i st Hst IH
                  | st Hst IH | st Hst IH].
  - rewrite games_of_constructor. constructor.
  - apply gain_ok_addGame; [by apply reachable_wf | done].
  - apply gain_ok_updateGame; [by apply reachable_wf | done].
  - by apply gain_ok_deleteGame.
  - rewrite clearGames_games. constructor.
  - rewrite getGames_games; [done | by apply reachable_wf].
Qed.

Example friday_saturday_games :
  games_of friday_saturday
  = [Game "_4fzyo82mv" "Friday Game" (num 100) (num 150) "1/2" (num 50);
     Game "_k3x9q0a7b" "Saturday Game" (num 200) (num 180) "2/5" (num (-20))].
Proof. vm_compute. reflexivity. Qed.

Example friday_rebought_games :
  games_of friday_rebought
  = [Game "_4fzyo82mv" "Friday Game" (num 120) (num 150) "1/2" (num 30);
     Game "_k3x9q0a7b" "Saturday Game" (num 200) (num 180) "2/5" (num (-20))].
Proof. vm_compute. reflexivity. Qed.

Example friday_saturday_totals :
  (getTotalBuyIn friday_saturday).1 = Normal (VNumber (num 300))
  ∧ (getTotalCashOut friday_saturday).1 = Normal (VNumber (num 330))
  ∧ (getTotalGainLoss friday_saturday).1 = Normal (VNumber (num 30))
  ∧ (getTotalGamesPlayed friday_saturday).1 = Normal (VNumber (num 2)).
Proof. repeat split; vm_compute; reflexivity. Qed.

(** ** Ids

    An id is written once, by [addGame]; no other method assigns to it.
    Distinct ids stay distinct through every method, provided [addGame] draws
    an id the ledger does not hold yet. *)

Lemma unique_ids_kept (st : state) :
  wf st → NoDup (id <$> games_of st) →
  (∀ r n b c s,
     _generateId r ∉ id <$> games_of st →
     NoDup (id <$> games_of (addGame r n b c s st).2))
  ∧ (∀ i u, id <$> games_of (updateGame i u st).2 = id <$> games_of st)
  ∧ (∀ i, NoDup (id <$> games_of (deleteGame i st).2))
  ∧ NoDup (id <$> games_of (clearGames st).2)
  ∧ id <$> games_of (getGames st).2 = id <$> games_of st.
Proof.
  intros Hwf Hnodup. split; [| split; [| split; [| split]]].
  - intros r n b c s Hnew. rewrite addGame_games by done.
    rewrite fmap_app. apply NoDup_app. split; [done |]. split.
    + intros x Hx Hin. apply list_elem_of_singleton in Hin. by subst.
    + apply NoDup_singleton.
  - intros i u.
    destruct (updateGame_view i u st Hwf)
      as [[_ ->] | (j & g0 & Hj & _ & _ & _ & ->)]; [done |].
    rewrite list_fmap_insert. apply list_insert_id.
    by rewrite list_lookup_fmap, Hj.
  - intros i. rewrite deleteGame_games.
    eapply sublist_NoDup; [exact Hnodup |]. apply fmap_sublist, sublist_filter.
  - rewrite clearGames_games. constructor.
  - by rewrite getGames_games.
Qed.

(** The id keeps nine digits of the draw: longer draws that agree on them
    give one id. *)
Example _generateId_truncates :
  _generateId "0.4fzyo82mvyr" = "_4fzyo82mv"
  ∧ _generateId "0.4fzyo82mvzz" = "_4fzyo82mv"
  ∧ _generateId "0" = "_".
Proof. repeat split. Qed.

(** ** The claims *)

(** C1: in every store reached through the methods of the tracker, every
    record of the ledger has [gainLoss = cashOut - buyIn]; in particular right
    after [addGame] and after an [updateGame] that supplies [buyIn] or
    [cashOut], where the difference is taken on the record's resulting
    fields. *)
Theorem gainLoss_is_cashOut_minus_buyIn (st : state) :
  reachable st →
  Forall (λ g, gainLoss g = (cashOut g - buyIn g)%Qc) (games_of st)
  ∧ (∀ r n b c s,
       Forall (λ g, gainLoss g = (cashOut g - buyIn g)%Qc)
              (games_of (addGame r n b c s st).2))
  ∧ (∀ i u,
       Forall (λ g, gainLoss g = (cashOut g - buyIn g)%Qc)
              (games_of (updateGame i u st).2)).
Proof.
  intros H. split; [| split].
  - exact (gain_ok_reachable st H).
  - intros r n b c s. apply (gain_ok_reachable _ (reach_addGame r n b c s st H)).
  - intros i u. apply (gain_ok_reachable _ (reach_updateGame i u st H)).
Qed.

Lemma gainLoss_is_cashOut_minus_buyIn_witness :
  reachable friday_saturday
  ∧ Forall (λ g, gainLoss g = (cashOut g - buyIn g)%Qc) (games_of friday_rebought).
Proof.
  split.
  - apply reach_addGame, reach_addGame, reach_constructor.
  - apply (gainLoss_is_cashOut_minus_buyIn friday_saturday).
    apply reach_addGame, reach_addGame, reach_constructor.
Defined.

Section doubles_facts.
Import PrimFloat.

Lemma Doubles_add_exact_values (x y : float) :
  Doubles.add_exact x y →
  ∃ a b : Qc,
    Doubles.value x = Some a ∧ Doubles.value y = Some b
    ∧ Doubles.value (x + y)%float = Some (a + b)%Qc.
Proof.
  intros [[q Hq] Hv]. rewrite Hq in Hv.
  destruct (Doubles.value x) as [a|]; [| done].
  destruct (Doubles.value y) as [b|]; [| done].
  simpl in Hq. injection Hq as <-. by exists a, b.
Qed.

Lemma Doubles_sub_exact_values (x y : float) :
  Doubles.sub_exact x y →
  ∃ a b : Qc,
    Doubles.value x = Some a ∧ Doubles.value y = Some b
    ∧ Doubles.value (x - y)%float = Some (a - b)%Qc.
Proof.
  intros [[q Hq] Hv]. rewrite Hq in Hv.
  destruct (Doubles.value x) as [a|]; [| done].
  destruct (Doubles.value y) as [b|]; [| done].
  simpl in Hq. injection Hq as <-. by exists a, b.
Qed.

(** A [reduce] without rounding returns the double that stands for the sum
    of the numbers. *)
Lemma Doubles_reduce_value (f : Doubles.game → float) (games : list Doubles.game) :
  ∀ (acc : float) (a : Qc),
    Doubles.value acc = Some a →
    Doubles.adds_exact f acc games →
    Doubles.value (fold_left (λ total game, (total + f game)%float) games acc)
    = Some (a + Doubles.value_sum f games)%Qc.
Proof.
  induction games as [|g games IH]; intros acc a Ha Hex; simpl.
  - rewrite Ha. f_equal. ring.
  - destruct Hex as [Hadd Hrest].
    destruct (Doubles_add_exact_values _ _ Hadd) as (a' & b & Ha' & Hb & Hsum).
    rewrite Ha in Ha'. injection Ha' as <-.
    rewrite (IH _ _ Hsum Hrest), Hb. simpl. f_equal. ring.
Qed.

Lemma Doubles_gainLoss_kept (games : list Doubles.game) :
  Doubles.reachable games →
  Forall (λ g, Doubles.gainLoss g = (Doubles.cashOut g - Doubles.buyIn g)%float)
         games.
Proof.
  induction 1 as [| r n b c s games _ IH | i u games _ IH | i games _ IH
                  | games _ IH]; simpl.
  - constructor.
  - apply Forall_app. split; [done |]. by repeat constructor.
  - unfold Doubles.updateGame.
    destruct (findIndex _ games =? -1)%Z; [done |].
    destruct (games !! Z.to_nat (findIndex _ games)) as [g|] eqn:Hg; [| done].
    simpl. apply Forall_insert; [done |].
    assert (Hinv : Doubles.gainLoss g = (Doubles.cashOut g - Doubles.buyIn g)%float).
    { rewrite Forall_forall in IH. apply IH. by eapply list_elem_of_lookup_2. }
    destruct u as [[n|] [b|] [c|] [s|]]; simpl; try reflexivity; exact Hinv.
  - rewrite List_filter_stdpp. apply Forall_forall. intros g Hg.
    apply list_elem_of_filter in Hg as [_ Hg].
    rewrite Forall_forall in IH. by apply IH.
  - constructor.
Qed.

Lemma Doubles_value_sum_gainLoss (games : list Doubles.game) :
  Forall (λ g, Doubles.gainLoss g = (Doubles.cashOut g - Doubles.buyIn g)%float)
         games →
  Forall (λ g, Doubles.sub_exact (Doubles.cashOut g) (Doubles.buyIn g)) games →
  Doubles.value_sum Doubles.gainLoss games
  = (Doubles.value_sum Doubles.cashOut games
     - Doubles.value_sum Doubles.buyIn games)%Qc.
Proof.
  induction 1 as [|g games Hg _ IH]; intros Hex; simpl.
  - ring.
  - apply Forall_cons in Hex as [Hsub Hex]. rewrite (IH Hex), Hg.
    destruct (Doubles_sub_exact_values _ _ Hsub) as (c & b & -> & -> & ->).
    simpl. ring.
Qed.

(** C2, as the code has it: the totals are sums of doubles, and every
    addition and every [cashOut - buyIn] rounds its result.  In every
    reachable ledger in which none of them rounds (all the results are finite
    and exact), the number [getTotalGainLoss()] returns is the number
    [getTotalCashOut()] returns minus the number [getTotalBuyIn()] returns,
    and so is the double [getTotalCashOut() - getTotalBuyIn()] when that last
    subtraction is exact as well. *)
Theorem totals_agree_without_rounding (games : list Doubles.game) :
  Doubles.reachable games →
  Doubles.no_rounding games →
  ∃ gl bi co : Qc,
    Doubles.value (Doubles.getTotalGainLoss games) = Some gl
    ∧ Doubles.value (Doubles.getTotalBuyIn games) = Some bi
    ∧ Doubles.value (Doubles.getTotalCashOut games) = Some co
    ∧ gl = (co - bi)%Qc
    ∧ (Doubles.sub_exact (Doubles.getTotalCashOut games)
                         (Doubles.getTotalBuyIn games) →
       Doubles.value (Doubles.getTotalCashOut games
                      - Doubles.getTotalBuyIn games)%float
       = Doubles.value (Doubles.getTotalGainLoss games)).
Proof.
  intros Hreach (Hsub & Hgl & Hbi & Hco).
  assert (H0 : Doubles.value 0%float = Some 0%Qc) by (vm_compute; reflexivity).
  pose proof (Doubles_reduce_value Doubles.gainLoss games _ _ H0 Hgl) as Egl.
  pose proof (Doubles_reduce_value Doubles.buyIn games _ _ H0 Hbi) as Ebi.
  pose proof (Doubles_reduce_value Doubles.cashOut games _ _ H0 Hco) as Eco.
  pose proof (Doubles_value_sum_gainLoss games (Doubles_gainLoss_kept games Hreach)
                Hsub) as Esum.
  fold (Doubles.getTotalGainLoss games) in Egl.
  fold (Doubles.getTotalBuyIn games) in Ebi.
  fold (Doubles.getTotalCashOut games) in Eco.
  eexists _, _, _. split; [exact Egl |]. split; [exact Ebi |].
  split; [exact Eco |]. split.
  - rewrite Esum. ring.
  - intros Hlast.
    destruct (Doubles_sub_exact_values _ _ Hlast) as (c & b & Hc & Hb & ->).
    rewrite Eco in Hc. rewrite Ebi in Hb. injection Hc as <-. injection Hb as <-.
    rewrite Egl, Esum. f_equal. ring.
Qed.

Lemma totals_agree_without_rounding_witness :
  Doubles.reachable Doubles.whole_amounts
  ∧ Doubles.no_rounding Doubles.whole_amounts
  ∧ ∃ gl bi co : Qc,
      Doubles.value (Doubles.getTotalGainLoss Doubles.whole_amounts) = Some gl
      ∧ Doubles.value (Doubles.getTotalBuyIn Doubles.whole_amounts) = Some bi
      ∧ Doubles.value (Doubles.getTotalCashOut Doubles.whole_amounts) = Some co
      ∧ gl = (co - bi)%Qc
      ∧ (Doubles.sub_exact (Doubles.getTotalCashOut Doubles.whole_amounts)
                           (Doubles.getTotalBuyIn Doubles.whole_amounts) →
         Doubles.value (Doubles.getTotalCashOut Doubles.whole_amounts
                        - Doubles.getTotalBuyIn Doubles.whole_amounts)%float
         = Doubles.value (Doubles.getTotalGainLoss Doubles.whole_amounts)).
Proof.
  assert (Hr : Doubles.reachable Doubles.whole_amounts).
  { apply Doubles.reach_updateGame, Doubles.reach_addGame, Doubles.reach_addGame,
          Doubles.reach_constructor. }
  assert (Hn : Doubles.no_rounding Doubles.whole_amounts) by by_evaluation.
  split; [exact Hr |]. split; [exact Hn |].
  exact (totals_agree_without_rounding Doubles.whole_amounts Hr Hn).
Defined.

(** C2, as stated, fails on doubles.  After
    [addGame("Friday Game", 0.1, 0.1, "1/2")] and
    [addGame("Saturday Game", 0.1, 0.2, "2/5")] the gain/loss total is 0.1
    while the cash-out total minus the buy-in total is 0.10000000000000003,
    and [===] tells them apart. *)
#[warnings="-inexact-float"]
Lemma totals_differ_by_rounding :
  Doubles.reachable Doubles.small_stakes
  ∧ Doubles.getTotalGainLoss Doubles.small_stakes = 0.1%float
  ∧ (Doubles.getTotalCashOut Doubles.small_stakes
     - Doubles.getTotalBuyIn Doubles.small_stakes)%float
    = 0.10000000000000003%float
  ∧ ((Doubles.getTotalGainLoss Doubles.small_stakes)
     =? (Doubles.getTotalCashOut Doubles.small_stakes
         - Doubles.getTotalBuyIn Doubles.small_stakes))%float = false.
Proof.
  split; [| split; [| split]].
  - apply Doubles.reach_addGame, Doubles.reach_addGame, Doubles.reach_constructor.
  - vm_compute. reflexivity.
  - vm_compute. reflexivity.
  - vm_compute. reflexivity.
Qed.

(** The amounts of that ledger do round. *)
Example small_stakes_round : ¬ Doubles.no_rounding Doubles.small_stakes.
Proof.
  intros H. apply (bool_decide_pack _) in H. vm_compute in H. exact H.
Qed.

End doubles_facts.

(** C3: when no record of the ledger has the given id, [updateGame] throws
    the error "Game session not found", whatever the supplied fields, and the
    store after the call is the store before it. *)
Theorem updateGame_unknown_id_throws (i : string) (u : UpdatedData.t) (st : state) :
  Forall (λ g, id g ≠ i) (games_of st) →
  updateGame i u st = (Throw (Error "Game session not found"), st).
Proof. apply updateGame_not_found. Qed.

Lemma updateGame_unknown_id_throws_witness :
  updateGame "_nosuchid" (UpdatedData.Make (Some "Sunday Game") None None None)
             friday_saturday
  = (Throw (Error "Game session not found"), friday_saturday).
Proof.
  apply (updateGame_unknown_id_throws "_nosuchid" _ friday_saturday).
  by_evaluation.
Defined.

(** C4, as the code has it: on a well-formed store [addGame] does not throw,
    returns [undefined], and appends to the end of the ledger one record made
    of the id drawn by [_generateId], the four arguments, and
    [gainLoss = cashOut - buyIn]. *)
Theorem addGame_appends_record (r n : string) (b c : Qc) (s : string) (st : state) :
  wf st →
  (addGame r n b c s st).1 = Normal VUndefined
  ∧ games_of (addGame r n b c s st).2
    = games_of st ++ [Game (_generateId r) n b c s (c - b)%Qc].
Proof. intros Hwf. split; [reflexivity | by apply addGame_games]. Qed.

Lemma addGame_appends_record_witness :
  wf friday
  ∧ (addGame "0.k3x9q0a7bc1" "Saturday Game" (num 200) (num 180) "2/5" friday).1
    = Normal VUndefined
  ∧ games_of
      (addGame "0.k3x9q0a7bc1" "Saturday Game" (num 200) (num 180) "2/5" friday).2
    = games_of friday
      ++ [Game (_generateId "0.k3x9q0a7bc1") "Saturday Game" (num 200) (num 180) "2/5"
               (num 180 - num 200)%Qc].
Proof.
  split; [by_evaluation |].
  apply (addGame_appends_record "0.k3x9q0a7bc1" "Saturday Game" (num 200) (num 180)
                                "2/5" friday).
  by_evaluation.
Defined.

(** C4, as stated, fails: [addGame] has no [return], so the caller receives
    [undefined] and not the id of the record that was appended. *)
Lemma addGame_returns_undefined :
  let r := addGame "0.4fzyo82mvyr" "Friday Game" (num 100) (num 150) "1/2"
                   constructor in
  last (games_of r.2)
  = Some (Game "_4fzyo82mv" "Friday Game" (num 100) (num 150) "1/2" (num 50))
  ∧ r.1 = Normal VUndefined
  ∧ r.1 ≠ Normal (VString "_4fzyo82mv").
Proof.
  split; [| split].
  - vm_compute. reflexivity.
  - reflexivity.
  - discriminate.
Qed.

(** C5 fails on the code: nothing keeps [_generateId] from drawing an id
    that the ledger already holds.  When [Math.random] gives the same number
    for two calls of [addGame], the ledger holds two records with one id. *)
Theorem addGame_can_repeat_an_id :
  let st := (addGame "0.4fzyo82mvyr" "Saturday Game" (num 200) (num 180) "2/5"
                     friday).2 in
  reachable st
  ∧ id <$> games_of st = ["_4fzyo82mv"; "_4fzyo82mv"]
  ∧ ¬ NoDup (id <$> games_of st).
Proof.
  split; [| split].
  - apply reach_addGame, reach_addGame, reach_constructor.
  - vm_compute. reflexivity.
  - intros H. apply (bool_decide_pack _) in H. vm_compute in H. exact H.
Qed.

(** C6, as the code has it: on a well-formed store [getGames] returns a
    reference to a new array that holds the records of the ledger in insertion
    order, and leaves the ledger as it was; whatever the caller then writes
    into that array, the ledger still holds the same records.  The copy is
    shallow: the elements of the returned array are the very references that
    the tracker's array holds, so the records inside it are the ledger's own
    objects, and an assignment to a property of element [k] changes record [k]
    of the ledger. *)
Theorem getGames_returns_new_array (st : state) :
  wf st →
  ∃ a : loc,
    (getGames st).1 = Normal (VRef a)
    ∧ a ≠ _games (getGames st).2
    ∧ omap (deref (getGames st).2) (array_at (getGames st).2 a) = games_of st
    ∧ games_of (getGames st).2 = games_of st
    ∧ (∀ ls : list loc,
         games_of (caller_writes_array a ls (getGames st).2) = games_of st)
    ∧ array_at (getGames st).2 a = array_at st (_games st)
    ∧ array_at (getGames st).2 a
      = array_at (getGames st).2 (_games (getGames st).2)
    ∧ (∀ (k : nat) (l : loc) (g : game) (f : game → game),
         array_at (getGames st).2 a !! k = Some l →
         deref (getGames st).2 l = Some g →
         games_of (caller_writes_object l f (getGames st).2)
         = <[k := f g]> (games_of st)).
Proof.
  intros Hwf. pose proof Hwf as (Hsome & _ & _).
  pose proof (fresh_array_unused st Hsome) as Hne.
  pose proof (getGames_wf st Hwf) as Hwf'.
  pose proof (getGames_games st Hwf) as Hgames.
  pose proof (getGames_array st Hsome) as Harr.
  assert (Ha : array_at (getGames st).2 (fresh (dom (arrs st)))
               = array_at st (_games st)).
  { rewrite getGames_state. cbn [snd]. apply array_at_insert_eq. }
  exists (fresh (dom (arrs st))).
  split; [reflexivity |]. split; [exact Hne |]. split; [| split; [| split]].
  - rewrite Ha. rewrite getGames_state. reflexivity.
  - exact Hgames.
  - intros ls. rewrite getGames_state.
    unfold games_of, caller_writes_array, array_at; simpl.
    by rewrite !lookup_insert_ne.
  - split; [exact Ha |]. split; [by rewrite Ha, Harr |].
    intros k l g f Hk Hl. rewrite <- Hgames.
    apply (games_of_alter f (getGames st).2 k l g Hwf'); [| exact Hl].
    by rewrite Harr, <- Ha.
Qed.

Lemma getGames_returns_new_array_witness :
  wf friday_saturday
  ∧ ∃ a : loc,
      (getGames friday_saturday).1 = Normal (VRef a)
      ∧ a ≠ _games (getGames friday_saturday).2
      ∧ omap (deref (getGames friday_saturday).2)
             (array_at (getGames friday_saturday).2 a)
        = games_of friday_saturday
      ∧ games_of (getGames friday_saturday).2 = games_of friday_saturday
      ∧ (∀ ls : list loc,
           games_of (caller_writes_array a ls (getGames friday_saturday).2)
           = games_of friday_saturday)
      ∧ array_at (getGames friday_saturday).2 a
        = array_at friday_saturday (_games friday_saturday)
      ∧ array_at (getGames friday_saturday).2 a
        = array_at (getGames friday_saturday).2 (_games (getGames friday_saturday).2)
      ∧ (∀ (k : nat) (l : loc) (g : game) (f : game → game),
           array_at (getGames friday_saturday).2 a !! k = Some l →
           deref (getGames friday_saturday).2 l = Some g →
           games_of (caller_writes_object l f (getGames friday_saturday).2)
           = <[k := f g]> (games_of friday_saturday)).
Proof.
  split; [by_evaluation |].
  apply (getGames_returns_new_array friday_saturday). by_evaluation.
Defined.

(** C6, as stated, fails: the array returned by [getGames] holds the
    ledger's own session objects, so an assignment to a property of a returned
    record is an assignment to the record of the ledger. *)
Lemma getGames_shares_session_objects :
  let r := getGames friday in
  r.1 = Normal (VRef 2%positive)
  ∧ array_at r.2 2%positive = [1%positive]
  ∧ games_of r.2
    = [Game "_4fzyo82mv" "Friday Game" (num 100) (num 150) "1/2" (num 50)]
  ∧ games_of (caller_writes_object 1%positive (set_buyIn (num 0)) r.2)
    = [Game "_4fzyo82mv" "Friday Game" (num 0) (num 150) "1/2" (num 50)]
  ∧ games_of (caller_writes_object 1%positive (set_buyIn (num 0)) r.2)
    ≠ games_of r.2.
Proof.
  split; [| split; [| split; [| split]]].
  - vm_compute. reflexivity.
  - vm_compute. reflexivity.
  - vm_compute. reflexivity.
  - vm_compute. reflexivity.
  - vm_compute. intros [=].
Qed.

(** C7: [deleteGame] does not throw; the ledger afterwards is the ledger
    before without the records of the given id, the others in their former
    order; it is the same ledger when no record has the id; and deleting a
    record in the middle joins what came before it to what came after it. *)
Theorem deleteGame_keeps_the_rest_in_order (i : string) (st : state) :
  (deleteGame i st).1 = Normal VUndefined
  ∧ games_of (deleteGame i st).2 = filter (λ g, id g ≠ i) (games_of st)
  ∧ sublist (games_of (deleteGame i st).2) (games_of st)
  ∧ (Forall (λ g, id g ≠ i) (games_of st) →
     games_of (deleteGame i st).2 = games_of st)
  ∧ (∀ (before after : list game) (g : game),
       games_of st = before ++ g :: after →
       id g = i →
       Forall (λ x, id x ≠ i) before → Forall (λ x, id x ≠ i) after →
       games_of (deleteGame i st).2 = before ++ after).
Proof.
  split; [reflexivity |]. rewrite deleteGame_games.
  split; [reflexivity |]. split; [apply sublist_filter |]. split.
  - intros H. induction H as [|g gs Hg _ IH]; [done |].
    rewrite filter_cons_True by done. by rewrite IH.
  - intros before after g -> Hg Hb Ha.
    rewrite filter_app, filter_cons_False by (intros H; by apply H).
    f_equal.
    + induction Hb as [|x xs Hx _ IH]; [done |].
      rewrite filter_cons_True by done. by rewrite IH.
    + induction Ha as [|x xs Hx _ IH]; [done |].
      rewrite filter_cons_True by done. by rewrite IH.
Qed.

(** C8: on a well-formed store each aggregate query returns without an error
    and without changing the store: the three totals are the sums of
    [gainLoss], [buyIn] and [cashOut] over the records, the count is the
    number of records, and all four are 0 on an empty ledger. *)
Theorem aggregates_are_sums (st : state) :
  wf st →
  getTotalGainLoss st = (Normal (VNumber (sum_of gainLoss (games_of st))), st)
  ∧ getTotalBuyIn st = (Normal (VNumber (sum_of buyIn (games_of st))), st)
  ∧ getTotalCashOut st = (Normal (VNumber (sum_of cashOut (games_of st))), st)
  ∧ getTotalGamesPlayed st
    = (Normal (VNumber (number_of_nat (length (games_of st)))), st)
  ∧ (games_of st = [] →
     getTotalGainLoss st = (Normal (VNumber 0%Qc), st)
     ∧ getTotalBuyIn st = (Normal (VNumber 0%Qc), st)
     ∧ getTotalCashOut st = (Normal (VNumber 0%Qc), st)
     ∧ getTotalGamesPlayed st = (Normal (VNumber 0%Qc), st)).
Proof.
  intros (_ & _ & Hlive).
  assert (Hlen : length (array_at st (_games st)) = length (games_of st)).
  { unfold games_of. by rewrite omap_length_live. }
  unfold getTotalGainLoss, getTotalBuyIn, getTotalCashOut, getTotalGamesPlayed.
  rewrite !reduce_field_sum, Hlen.
  split; [done |]. split; [done |]. split; [done |]. split; [done |].
  intros ->. done.
Qed.

Lemma aggregates_are_sums_witness :
  wf friday_saturday
  ∧ getTotalGainLoss friday_saturday
    = (Normal (VNumber (sum_of gainLoss (games_of friday_saturday))), friday_saturday)
  ∧ getTotalBuyIn friday_saturday
    = (Normal (VNumber (sum_of buyIn (games_of friday_saturday))), friday_saturday)
  ∧ getTotalCashOut friday_saturday
    = (Normal (VNumber (sum_of cashOut (games_of friday_saturday))), friday_saturday)
  ∧ getTotalGamesPlayed friday_saturday
    = (Normal (VNumber (number_of_nat (length (games_of friday_saturday)))),
       friday_saturday)
  ∧ (games_of friday_saturday = [] →
     getTotalGainLoss friday_saturday = (Normal (VNumber 0%Qc), friday_saturday)
     ∧ getTotalBuyIn friday_saturday = (Normal (VNumber 0%Qc), friday_saturday)
     ∧ getTotalCashOut friday_saturday = (Normal (VNumber 0%Qc), friday_saturday)
     ∧ getTotalGamesPlayed friday_saturday
       = (Normal (VNumber 0%Qc), friday_saturday)).
Proof.
  split; [by_evaluation |].
  apply (aggregates_are_sums friday_saturday). by_evaluation.
Defined.

(** C9: when the ledger holds a record with the given id, [updateGame]
    returns without an error and replaces the first such record, at its
    position, by a record with the same id in which each supplied field has
    the supplied value and each field that was not supplied has its former
    value; [gainLoss] keeps its former value unless [buyIn] or [cashOut] is
    supplied, and is then the difference of the resulting two.  Every other
    position of the ledger holds the record it held before. *)
Theorem updateGame_changes_only_supplied_fields
    (i : string) (u : UpdatedData.t) (st : state) (g : game) :
  wf st → g ∈ games_of st → id g = i →
  ∃ (j : nat) (g0 g' : game),
    games_of st !! j = Some g0 ∧ id g0 = i
    ∧ Forall (λ x, id x ≠ i) (take j (games_of st))
    ∧ (updateGame i u st).1 = Normal VUndefined
    ∧ games_of (updateGame i u st).2 = <[j := g']> (games_of st)
    ∧ (∀ k : nat, k ≠ j →
         games_of (updateGame i u st).2 !! k = games_of st !! k)
    ∧ length (games_of (updateGame i u st).2) = length (games_of st)
    ∧ id g' = id g0
    ∧ gameName g' = default (gameName g0) (UpdatedData.gameName u)
    ∧ buyIn g' = default (buyIn g0) (UpdatedData.buyIn u)
    ∧ cashOut g' = default (cashOut g0) (UpdatedData.cashOut u)
    ∧ stakes g' = default (stakes g0) (UpdatedData.stakes u)
    ∧ gainLoss g'
      = if defined (UpdatedData.buyIn u) || defined (UpdatedData.cashOut u)
        then (cashOut g' - buyIn g')%Qc else gainLoss g0.
Proof.
  intros Hwf Hin Hid.
  destruct (updateGame_view i u st Hwf)
    as [[Hno _] | (j & g0 & Hj & Hid0 & Hbefore & Hret & Hview)].
  { rewrite Forall_forall in Hno. by destruct (Hno g Hin). }
  exists j, g0, (merged u g0). rewrite Hview.
  split; [done |]. split; [done |]. split; [done |]. split; [done |].
  split; [done |]. split.
  { intros k Hk. by apply list_lookup_insert_ne. }
  split; [apply length_insert |].
  repeat split.
Qed.

Lemma updateGame_changes_only_supplied_fields_witness :
  ∃ (j : nat) (g0 g' : game),
    games_of friday_saturday !! j = Some g0 ∧ id g0 = "_4fzyo82mv"
    ∧ Forall (λ x, id x ≠ "_4fzyo82mv") (take j (games_of friday_saturday))
    ∧ (updateGame "_4fzyo82mv" (UpdatedData.Make None (Some (num 120)) None None)
                  friday_saturday).1 = Normal VUndefined
    ∧ games_of friday_rebought = <[j := g']> (games_of friday_saturday)
    ∧ (∀ k : nat, k ≠ j →
         games_of friday_rebought !! k = games_of friday_saturday !! k)
    ∧ length (games_of friday_rebought) = length (games_of friday_saturday)
    ∧ id g' = id g0
    ∧ gameName g' = gameName g0
    ∧ buyIn g' = num 120
    ∧ cashOut g' = cashOut g0
    ∧ stakes g' = stakes g0
    ∧ gainLoss g' = (cashOut g' - buyIn g')%Qc.
Proof.
  apply (updateGame_changes_only_supplied_fields
           "_4fzyo82mv" (UpdatedData.Make None (Some (num 120)) None None)
           friday_saturday
           (Game "_4fzyo82mv" "Friday Game" (num 100) (num 150) "1/2" (num 50))).
  - by_evaluation.
  - rewrite friday_saturday_games. apply list_elem_of_here.
  - reflexivity.
Defined.

(** C10: after [deleteGame] no record of the ledger has the given id, also
    when several records had it; no session object is changed, and every
    record with another id that the tracker's array held is still held. *)
Theorem deleteGame_removes_every_match (i : string) (st : state) :
  Forall (λ g, id g ≠ i) (games_of (deleteGame i st).2)
  ∧ objs (deleteGame i st).2 = objs st
  ∧ (∀ (l : loc) (g : game),
       l ∈ array_at st (_games st) → deref st l = Some g → id g ≠ i →
       l ∈ array_at (deleteGame i st).2 (_games (deleteGame i st).2)
       ∧ deref (deleteGame i st).2 l = Some g)
  ∧ (∀ l : loc,
       l ∈ array_at (deleteGame i st).2 (_games (deleteGame i st).2) →
       l ∈ array_at st (_games st)).
Proof.
  split; [| split; [| split]].
  - rewrite deleteGame_games. apply Forall_forall. intros g Hg.
    by apply list_elem_of_filter in Hg as [Hg _].
  - reflexivity.
  - intros l g Hl Hg Hid. split; [| exact Hg].
    rewrite deleteGame_array, List_filter_stdpp. apply list_elem_of_filter.
    split; [| done]. unfold has_other_id. rewrite Hg; simpl. apply negb_true_iff.
    by apply String.eqb_neq.
  - intros l. rewrite deleteGame_array, List_filter_stdpp.
    intros Hl. by apply list_elem_of_filter in Hl as [_ Hl].
Qed.

(** ** Further properties of the tracker *)

Lemma sum_of_app (f : game → Qc) (gs hs : list game) :
  sum_of f (gs ++ hs) = (sum_of f gs + sum_of f hs)%Qc.
Proof.
  induction gs as [|g gs IH]; simpl.
  - ring.
  - rewrite IH. ring.
Qed.

Lemma games_of_length st :
  wf st → length (games_of st) = length (array_at st (_games st)).
Proof. intros (_ & _ & Hlive). unfold games_of. by apply omap_length_live. Qed.

Lemma filter_length_minus {A : Type} (P Q : A → Prop)
    `{!∀ x, Decision (P x)} `{!∀ x, Decision (Q x)} (l : list A) :
  (∀ x, Q x ↔ ¬ P x) →
  length (filter Q l) = length l - length (filter P l).
Proof.
  intros HPQ.
  assert (E : length (filter P l) + length (filter Q l) = length l); [| lia].
  induction l as [|x l IH]; [done |].
  rewrite !filter_cons. pose proof (HPQ x) as Hx.
  repeat case_decide; simpl; try lia; tauto.
Qed.

(** [clearGames], from any store: it returns [undefined]; afterwards the
    ledger is empty, the four aggregates are 0, and [getGames] returns a
    reference to an empty array. *)
Theorem clearGames_empties_the_ledger (st : state) :
  (clearGames st).1 = Normal VUndefined
  ∧ wf (clearGames st).2
  ∧ games_of (clearGames st).2 = []
  ∧ (getTotalGainLoss (clearGames st).2).1 = Normal (VNumber 0%Qc)
  ∧ (getTotalGamesPlayed (clearGames st).2).1 = Normal (VNumber 0%Qc)
  ∧ (getTotalBuyIn (clearGames st).2).1 = Normal (VNumber 0%Qc)
  ∧ (getTotalCashOut (clearGames st).2).1 = Normal (VNumber 0%Qc)
  ∧ ∃ a : loc,
      (getGames (clearGames st).2).1 = Normal (VRef a)
      ∧ array_at (getGames (clearGames st).2).2 a = [].
Proof.
  assert (Harr : array_at (clearGames st).2 (_games (clearGames st).2) = []).
  { rewrite clearGames_state. apply array_at_insert_eq. }
  split; [reflexivity |]. split; [apply clearGames_wf |].
  split; [apply clearGames_games |].
  unfold getTotalGainLoss, getTotalGamesPlayed, getTotalBuyIn, getTotalCashOut.
  rewrite !reduce_field_sum, clearGames_games, Harr.
  split; [done |]. split; [done |]. split; [done |]. split; [done |].
  exists (fresh (dom (arrs (clearGames st).2))).
  rewrite (getGames_state (clearGames st).2). simpl. split; [done |].
  rewrite array_at_insert_eq. exact Harr.
Qed.

(** Every store reached through the methods is well formed: the tracker's
    array holds live session objects, none of them twice, so that the count
    [this._games.length] is the number of records of the ledger. *)
Theorem reachable_store_is_well_formed (st : state) :
  reachable st →
  wf st
  ∧ NoDup (array_at st (_games st))
  ∧ Forall2 (λ l g, deref st l = Some g) (array_at st (_games st)) (games_of st)
  ∧ getTotalGamesPlayed st
    = (Normal (VNumber (number_of_nat (length (games_of st)))), st).
Proof.
  intros H. pose proof (reachable_wf st H) as Hwf.
  split; [done |]. split; [by destruct Hwf as (_ & ? & _) |]. split.
  - destruct Hwf as (_ & _ & Hlive). unfold games_of.
    induction Hlive as [|l ls [g Hg] _ IH]; [constructor |].
    rewrite omap_cons, Hg. by constructor.
  - unfold getTotalGamesPlayed. by rewrite games_of_length.
Qed.

Lemma reachable_store_is_well_formed_witness :
  wf friday_rebought
  ∧ NoDup (array_at friday_rebought (_games friday_rebought))
  ∧ Forall2 (λ l g, deref friday_rebought l = Some g)
            (array_at friday_rebought (_games friday_rebought))
            (games_of friday_rebought)
  ∧ getTotalGamesPlayed friday_rebought
    = (Normal (VNumber (number_of_nat (length (games_of friday_rebought)))),
       friday_rebought).
Proof.
  apply (reachable_store_is_well_formed friday_rebought).
  apply reach_updateGame, reach_addGame, reach_addGame, reach_constructor.
Defined.

(** The count follows the calls: [addGame] raises it by one, [deleteGame]
    lowers it by the number of records that had the id, and [updateGame]
    leaves it alone. *)
Theorem count_after_each_method (st : state) :
  wf st →
  (∀ r n b c s,
     (getTotalGamesPlayed (addGame r n b c s st).2).1
     = Normal (VNumber (number_of_nat (S (length (games_of st))))))
  ∧ (∀ i,
     (getTotalGamesPlayed (deleteGame i st).2).1
     = Normal (VNumber (number_of_nat
         (length (games_of st) - length (filter (λ g, id g = i) (games_of st))))))
  ∧ (∀ i u,
     (getTotalGamesPlayed (updateGame i u st).2).1
     = Normal (VNumber (number_of_nat (length (games_of st))))).
Proof.
  intros Hwf. split; [| split].
  - intros r n b c s. unfold getTotalGamesPlayed; cbn [fst].
    rewrite <- games_of_length by by apply addGame_wf.
    rewrite addGame_games by done. rewrite length_app. simpl.
    do 3 f_equal. lia.
  - intros i. unfold getTotalGamesPlayed; cbn [fst].
    rewrite <- games_of_length by by apply deleteGame_wf.
    rewrite deleteGame_games. do 3 f_equal.
    by apply filter_length_minus.
  - intros i u. unfold getTotalGamesPlayed; cbn [fst].
    rewrite <- games_of_length by by apply updateGame_wf.
    destruct (updateGame_view i u st Hwf)
      as [[_ ->] | (j & g0 & _ & _ & _ & _ & ->)]; [done |].
    by rewrite length_insert.
Qed.

Lemma count_after_each_method_witness :
  (getTotalGamesPlayed
     (addGame "0.j5n2r8a3pfu" "Sunday Game" (num 50) (num 75) "1/2"
              friday_saturday).2).1
  = Normal (VNumber (number_of_nat (S (length (games_of friday_saturday))))).
Proof.
  assert (Hwf : wf friday_saturday) by by_evaluation.
  destruct (count_after_each_method friday_saturday Hwf) as [Hadd _].
  exact (Hadd "0.j5n2r8a3pfu" "Sunday Game" (num 50) (num 75) "1/2").
Defined.

(** The totals follow [addGame]: the buy-in total grows by [buyIn], the
    cash-out total by [cashOut], and the gain/loss total by their
    difference. *)
Theorem totals_after_addGame (r n : string) (b c : Qc) (s : string) (st : state) :
  wf st →
  (getTotalBuyIn (addGame r n b c s st).2).1
  = Normal (VNumber (sum_of buyIn (games_of st) + b)%Qc)
  ∧ (getTotalCashOut (addGame r n b c s st).2).1
    = Normal (VNumber (sum_of cashOut (games_of st) + c)%Qc)
  ∧ (getTotalGainLoss (addGame r n b c s st).2).1
    = Normal (VNumber (sum_of gainLoss (games_of st) + (c - b))%Qc).
Proof.
  intros Hwf. unfold getTotalBuyIn, getTotalCashOut, getTotalGainLoss; cbn [fst].
  rewrite !reduce_field_sum, addGame_games by done.
  rewrite !sum_of_app. simpl.
  repeat split; do 2 f_equal; ring.
Qed.

Lemma totals_after_addGame_witness :
  (getTotalBuyIn
     (addGame "0.j5n2r8a3pfu" "Sunday Game" (num 50) (num 75) "1/2"
              friday_saturday).2).1
  = Normal (VNumber (sum_of buyIn (games_of friday_saturday) + num 50)%Qc)
  ∧ (getTotalCashOut
       (addGame "0.j5n2r8a3pfu" "Sunday Game" (num 50) (num 75) "1/2"
                friday_saturday).2).1
    = Normal (VNumber (sum_of cashOut (games_of friday_saturday) + num 75)%Qc)
  ∧ (getTotalGainLoss
       (addGame "0.j5n2r8a3pfu" "Sunday Game" (num 50) (num 75) "1/2"
                friday_saturday).2).1
    = Normal (VNumber (sum_of gainLoss (games_of friday_saturday)
                       + (num 75 - num 50))%Qc).
Proof.
  apply (totals_after_addGame "0.j5n2r8a3pfu" "Sunday Game" (num 50) (num 75) "1/2"
                              friday_saturday).
  by_evaluation.
Defined.

(** [deleteGame] twice with one id is [deleteGame] once, and two deletions
    give the same ledger in either order. *)
Theorem deleteGame_idempotent_and_commutes (i j : string) (st : state) :
  games_of (deleteGame i (deleteGame i st).2).2 = games_of (deleteGame i st).2
  ∧ games_of (deleteGame i (deleteGame j st).2).2
    = games_of (deleteGame j (deleteGame i st).2).2.
Proof.
  rewrite !deleteGame_games, !list_filter_filter. split.
  - apply list_filter_iff. intros g. tauto.
  - apply list_filter_iff. intros g. tauto.
Qed.

(** [addGame] followed by [deleteGame] of the id that was drawn leaves the
    ledger without any record of that id: the ledger before the two calls
    when the id was new to it, and otherwise a ledger that has also lost the
    older records with that id. *)
Theorem deleteGame_after_addGame (r n : string) (b c : Qc) (s : string) (st : state) :
  wf st →
  games_of (deleteGame (_generateId r) (addGame r n b c s st).2).2
  = filter (λ g, id g ≠ _generateId r) (games_of st)
  ∧ (Forall (λ g, id g ≠ _generateId r) (games_of st) →
     games_of (deleteGame (_generateId r) (addGame r n b c s st).2).2 = games_of st).
Proof.
  intros Hwf. rewrite deleteGame_games, addGame_games by done.
  rewrite filter_app, filter_cons_False by (intros Hn; by apply Hn).
  rewrite filter_nil, app_nil_r. split; [done |].
  intros H. induction H as [|g gs Hg _ IH]; [done |].
  rewrite filter_cons_True by done. by rewrite IH.
Qed.

Lemma deleteGame_after_addGame_witness :
  games_of (deleteGame (_generateId "0.k3x9q0a7bc1")
              (addGame "0.k3x9q0a7bc1" "Saturday Game" (num 200) (num 180) "2/5"
                       friday).2).2
  = filter (λ g, id g ≠ _generateId "0.k3x9q0a7bc1") (games_of friday)
  ∧ (Forall (λ g, id g ≠ _generateId "0.k3x9q0a7bc1") (games_of friday) →
     games_of (deleteGame (_generateId "0.k3x9q0a7bc1")
                 (addGame "0.k3x9q0a7bc1" "Saturday Game" (num 200) (num 180) "2/5"
                          friday).2).2
     = games_of friday).
Proof.
  assert (Hwf : wf friday) by by_evaluation.
  exact (deleteGame_after_addGame "0.k3x9q0a7bc1" "Saturday Game" (num 200) (num 180)
                                  "2/5" friday Hwf).
Defined.

(** The first record with a given id is at one position only. *)
Lemma first_with_id_unique (i : string) (gs : list game) (j k : nat) (g h : game) :
  gs !! j = Some g → id g = i → Forall (λ x, id x ≠ i) (take j gs) →
  gs !! k = Some h → id h = i → Forall (λ x, id x ≠ i) (take k gs) →
  j = k.
Proof.
  intros Hj Hg Hbj Hk Hh Hbk.
  destruct (Nat.lt_trichotomy j k) as [Hlt | [-> | Hlt]]; [| done |].
  - rewrite Forall_forall in Hbk. destruct (Hbk g); [| done].
    apply list_elem_of_lookup. exists j. by rewrite lookup_take_lt.
  - rewrite Forall_forall in Hbj. destruct (Hbj h); [| done].
    apply list_elem_of_lookup. exists k. by rewrite lookup_take_lt.
Qed.

Lemma merged_idempotent (u : UpdatedData.t) (g : game) :
  merged u (merged u g) = merged u g.
Proof. destruct u as [[n|] [b|] [c|] [s|]], g; reflexivity. Qed.

(** On a well-formed store [updateGame] either throws the error "Game
    session not found" or returns [undefined]; it never fails in another way,
    and it never adds, removes, reorders or renames a record: the ids of the
    ledger are the same list before and after. *)
Theorem updateGame_keeps_the_ids (i : string) (u : UpdatedData.t) (st : state) :
  wf st →
  ((updateGame i u st).1 = Throw (Error "Game session not found")
   ∨ (updateGame i u st).1 = Normal VUndefined)
  ∧ id <$> games_of (updateGame i u st).2 = id <$> games_of st
  ∧ length (games_of (updateGame i u st).2) = length (games_of st).
Proof.
  intros Hwf.
  destruct (updateGame_view i u st Hwf)
    as [[_ ->] | (j & g0 & Hj & _ & _ & -> & ->)].
  - split; [by left |]. done.
  - split; [by right |]. split; [| apply length_insert].
    rewrite list_fmap_insert. apply list_insert_id.
    by rewrite list_lookup_fmap, Hj.
Qed.

Lemma updateGame_keeps_the_ids_witness :
  ((updateGame "_k3x9q0a7b" (UpdatedData.Make (Some "Late Game") None None None)
               friday_saturday).1 = Throw (Error "Game session not found")
   ∨ (updateGame "_k3x9q0a7b" (UpdatedData.Make (Some "Late Game") None None None)
                 friday_saturday).1 = Normal VUndefined)
  ∧ id <$> games_of
             (updateGame "_k3x9q0a7b"
                (UpdatedData.Make (Some "Late Game") None None None)
                friday_saturday).2
    = id <$> games_of friday_saturday
  ∧ length (games_of
              (updateGame "_k3x9q0a7b"
                 (UpdatedData.Make (Some "Late Game") None None None)
                 friday_saturday).2)
    = length (games_of friday_saturday).
Proof.
  assert (Hwf : wf friday_saturday) by by_evaluation.
  exact (updateGame_keeps_the_ids "_k3x9q0a7b"
           (UpdatedData.Make (Some "Late Game") None None None) friday_saturday Hwf).
Defined.

(** [updateGame] with no field supplied, for an id the ledger holds, returns
    [undefined] and leaves the whole store as it was. *)
Theorem updateGame_without_fields (i : string) (st : state) (g : game) :
  wf st → g ∈ games_of st → id g = i →
  updateGame i (UpdatedData.Make None None None None) st = (Normal VUndefined, st).
Proof.
  intros Hwf Hin Hid.
  destruct (updateGame_cases i (UpdatedData.Make None None None None) st Hwf)
    as [[Hno _] | (j & l & g0 & _ & _ & _ & _ & ->)].
  { rewrite Forall_forall in Hno. by destruct (Hno g Hin). }
  f_equal. destruct st as [o a gm]; simpl. f_equal.
  apply alter_id. by intros [].
Qed.

Lemma updateGame_without_fields_witness :
  updateGame "_4fzyo82mv" (UpdatedData.Make None None None None) friday_saturday
  = (Normal VUndefined, friday_saturday).
Proof.
  apply (updateGame_without_fields "_4fzyo82mv" friday_saturday
           (Game "_4fzyo82mv" "Friday Game" (num 100) (num 150) "1/2" (num 50))).
  - by_evaluation.
  - rewrite friday_saturday_games. apply list_elem_of_here.
  - reflexivity.
Defined.

(** [updateGame] is idempotent: the same call a second time leaves the
    ledger as the first call left it. *)
Theorem updateGame_idempotent (i : string) (u : UpdatedData.t) (st : state) :
  wf st →
  games_of (updateGame i u (updateGame i u st).2).2
  = games_of (updateGame i u st).2.
Proof.
  intros Hwf. pose proof (updateGame_wf i u st Hwf) as Hwf'.
  destruct (updateGame_view i u st Hwf)
    as [[Hno E] | (j & g0 & Hj & Hid & Hbefore & _ & Hview)].
  { rewrite E. simpl. by rewrite E. }
  destruct (updateGame_view i u (updateGame i u st).2 Hwf')
    as [[Hno _] | (k & g1 & Hk & Hid1 & Hbefore1 & _ & Hview1)].
  { rewrite Forall_forall in Hno. destruct (Hno (merged u g0)); [| done].
    rewrite Hview. apply list_elem_of_lookup. exists j.
    apply list_lookup_insert_eq. by eapply lookup_lt_Some. }
  assert (Hj' : games_of (updateGame i u st).2 !! j = Some (merged u g0)).
  { rewrite Hview. apply list_lookup_insert_eq. by eapply lookup_lt_Some. }
  assert (k = j) as ->.
  { eapply (first_with_id_unique i (games_of (updateGame i u st).2));
      [exact Hk | exact Hid1 | exact Hbefore1 | exact Hj' | exact Hid |].
    rewrite Hview, take_insert_ge by done. exact Hbefore. }
  rewrite Hj' in Hk. injection Hk as <-.
  rewrite Hview1, merged_idempotent. by apply list_insert_id.
Qed.

Lemma updateGame_idempotent_witness :
  games_of (updateGame "_4fzyo82mv"
              (UpdatedData.Make None (Some (num 120)) None None)
              friday_rebought).2
  = games_of friday_rebought.
Proof.
  assert (Hwf : wf friday_saturday) by by_evaluation.
  exact (updateGame_idempotent "_4fzyo82mv"
           (UpdatedData.Make None (Some (num 120)) None None) friday_saturday Hwf).
Defined.

(** ** What the methods do not write *)

Lemma arrs_frame (st : state) (a : loc) :
  wf st → a ≠ _games st → is_Some (arrs st !! a) →
  (∀ r n b c s, arrs (addGame r n b c s st).2 !! a = arrs st !! a)
  ∧ (∀ i u, arrs (updateGame i u st).2 = arrs st)
  ∧ (∀ i, arrs (deleteGame i st).2 !! a = arrs st !! a)
  ∧ arrs (clearGames st).2 !! a = arrs st !! a
  ∧ arrs (getGames st).2 !! a = arrs st !! a.
Proof.
  intros Hwf Hne Ha.
  assert (Hfresh : fresh (dom (arrs st)) ≠ a).
  { intros E. apply elem_of_dom in Ha. rewrite <- E in Ha. by apply is_fresh in Ha. }
  split; [| split; [| split; [| split]]].
  - intros r n b c s. rewrite addGame_state; simpl. by apply lookup_alter_ne.
  - intros i u.
    by destruct (updateGame_cases i u st Hwf)
      as [[_ ->] | (j & l & g0 & _ & _ & _ & _ & ->)].
  - intros i. rewrite deleteGame_state; simpl. by apply lookup_insert_ne.
  - rewrite clearGames_state; simpl. by apply lookup_insert_ne.
  - rewrite getGames_state; simpl. by apply lookup_insert_ne.
Qed.

Lemma objs_frame (st : state) (l : loc) (g : game) :
  wf st → objs st !! l = Some g →
  (∀ r n b c s, objs (addGame r n b c s st).2 !! l = Some g)
  ∧ (∀ i u,
       objs (updateGame i u st).2 !! l = Some g
       ∨ (id g = i ∧ objs (updateGame i u st).2 !! l = Some (merged u g)))
  ∧ (∀ i, objs (deleteGame i st).2 = objs st)
  ∧ objs (clearGames st).2 = objs st
  ∧ objs (getGames st).2 = objs st.
Proof.
  intros Hwf Hl. split; [| split; [| split; [| split]]]; try done.
  - intros r n b c s. rewrite addGame_state; simpl.
    rewrite lookup_insert_ne; [done |].
    intros E. assert (Hin : l ∈ dom (objs st)) by (apply elem_of_dom; eauto).
    rewrite <- E in Hin. by apply is_fresh in Hin.
  - intros i u.
    destruct (updateGame_cases i u st Hwf)
      as [[_ ->] | (j & l' & g0 & _ & Hg0 & Hid & _ & ->)]; [by left |]. simpl.
    destruct (decide (l' = l)) as [-> | Hne].
    + right. unfold deref in Hg0. rewrite Hl in Hg0. injection Hg0 as <-.
      split; [done |]. by rewrite lookup_alter_eq, Hl.
    + left. by rewrite lookup_alter_ne.
Qed.

(** The methods write one array only, the one in [this._games]: any other
    array of the store, such as one that [getGames] returned earlier, has the
    same elements after every call.  And [updateGame] is the only method that
    writes to a session object that exists already; it writes to at most the
    one it was asked for. *)
Theorem methods_write_only_their_own_state (st : state) (a l : loc) (g : game) :
  wf st → a ≠ _games st → is_Some (arrs st !! a) → objs st !! l = Some g →
  (∀ r n b c s,
     array_at (addGame r n b c s st).2 a = array_at st a
     ∧ deref (addGame r n b c s st).2 l = Some g)
  ∧ (∀ i, array_at (deleteGame i st).2 a = array_at st a
          ∧ deref (deleteGame i st).2 l = Some g)
  ∧ (array_at (clearGames st).2 a = array_at st a
     ∧ deref (clearGames st).2 l = Some g)
  ∧ (array_at (getGames st).2 a = array_at st a
     ∧ deref (getGames st).2 l = Some g)
  ∧ (∀ i u,
       array_at (updateGame i u st).2 a = array_at st a
       ∧ (deref (updateGame i u st).2 l = Some g
          ∨ (id g = i ∧ deref (updateGame i u st).2 l = Some (merged u g)))).
Proof.
  intros Hwf Hne Ha Hl.
  destruct (arrs_frame st a Hwf Hne Ha) as (Aadd & Aupd & Adel & Aclr & Aget).
  destruct (objs_frame st l g Hwf Hl) as (Oadd & Oupd & Odel & Oclr & Oget).
  unfold array_at, deref.
  split; [| split; [| split; [| split]]].
  - intros r n b c s. by rewrite Aadd, Oadd.
  - intros i. by rewrite Adel, Odel.
  - by rewrite Aclr, Oclr.
  - by rewrite Aget, Oget.
  - intros i u. rewrite Aupd. split; [done | apply Oupd].
Qed.

Lemma methods_write_only_their_own_state_witness :
  let st := (getGames friday_saturday).2 in
  let u := UpdatedData.Make None (Some (num 120)) None None in
  let g := Game "_4fzyo82mv" "Friday Game" (num 100) (num 150) "1/2" (num 50) in
  array_at (updateGame "_4fzyo82mv" u st).2 2%positive = array_at st 2%positive
  ∧ (deref (updateGame "_4fzyo82mv" u st).2 1%positive = Some g
     ∨ (id g = "_4fzyo82mv"
        ∧ deref (updateGame "_4fzyo82mv" u st).2 1%positive = Some (merged u g))).
Proof.
  intros st u g.
  assert (Hwf : wf st) by by_evaluation.
  assert (Hne : 2%positive ≠ _games st) by by_evaluation.
  assert (Ha : is_Some (arrs st !! 2%positive)) by by_evaluation.
  assert (Hl : objs st !! 1%positive = Some g).
  { vm_compute. reflexivity. }
  exact (proj2 (proj2 (proj2 (proj2
           (methods_write_only_their_own_state st 2%positive 1%positive g
              Hwf Hne Ha Hl)))) "_4fzyo82mv" u).
Defined.

Lemma updateGame_fields (i : string) (u : UpdatedData.t) (st : state) :
  wf st →
  arrs (updateGame i u st).2 = arrs st ∧ _games (updateGame i u st).2 = _games st.
Proof.
  intros Hwf.
  by destruct (updateGame_cases i u st Hwf)
    as [[_ ->] | (j & l & g0 & _ & _ & _ & _ & ->)].
Qed.

(** A list that [getGames] returned earlier, read after a later call: after
    [addGame], [deleteGame] or [clearGames] it still shows the ledger as it
    was when the list was taken, records that were deleted since included and
    records that were added since left out; after [updateGame] it shows the
    updated ledger. *)
Theorem earlier_list_after_later_calls (st : state) :
  wf st →
  ∃ a : loc,
    (getGames st).1 = Normal (VRef a)
    ∧ (∀ r n b c s,
         omap (deref (addGame r n b c s (getGames st).2).2)
              (array_at (addGame r n b c s (getGames st).2).2 a)
         = games_of st)
    ∧ (∀ i,
         omap (deref (deleteGame i (getGames st).2).2)
              (array_at (deleteGame i (getGames st).2).2 a)
         = games_of st)
    ∧ omap (deref (clearGames (getGames st).2).2)
           (array_at (clearGames (getGames st).2).2 a)
      = games_of st
    ∧ (∀ i u,
         omap (deref (updateGame i u (getGames st).2).2)
              (array_at (updateGame i u (getGames st).2).2 a)
         = games_of (updateGame i u (getGames st).2).2).
Proof.
  intros Hwf. pose proof (getGames_wf st Hwf) as Hwf1.
  pose proof Hwf as (Hsome & _ & Hlive).
  exists (fresh (dom (arrs st))). split; [reflexivity |].
  set (a := fresh (dom (arrs st))). set (st1 := (getGames st).2) in *.
  assert (Hne : a ≠ _games st1) by exact (fresh_array_unused st Hsome).
  assert (Hat : arrs st1 !! a = Some (array_at st (_games st))).
  { unfold st1. rewrite getGames_state; simpl. apply lookup_insert_eq. }
  assert (Ha : is_Some (arrs st1 !! a)) by (rewrite Hat; by eexists).
  assert (Hsame : array_at st1 (_games st1) = array_at st (_games st)).
  { by apply getGames_array. }
  destruct (arrs_frame st1 a Hwf1 Hne Ha) as (Aadd & Aupd & Adel & Aclr & _).
  split; [| split; [| split]].
  - intros r n b c s. unfold array_at at 1. rewrite Aadd, Hat. simpl.
    apply omap_ext_in. eapply Forall_impl; [exact Hlive |]. intros l [g Hg].
    unfold deref in *.
    destruct (objs_frame st1 l g Hwf1 Hg) as (Oadd & _).
    rewrite Hg. exact (Oadd r n b c s).
  - intros i. unfold array_at at 1. rewrite Adel, Hat. simpl. done.
  - unfold array_at at 1. rewrite Aclr, Hat. simpl. done.
  - intros i u. destruct (updateGame_fields i u st1 Hwf1) as [Ea Eg].
    unfold games_of, array_at. rewrite Ea, Eg, Hat.
    fold (array_at st1 (_games st1)). by rewrite Hsame.
Qed.

Lemma earlier_list_after_later_calls_witness :
  ∃ a : loc,
    (getGames friday_saturday).1 = Normal (VRef a)
    ∧ (∀ r n b c s,
         omap (deref (addGame r n b c s (getGames friday_saturday).2).2)
              (array_at (addGame r n b c s (getGames friday_saturday).2).2 a)
         = games_of friday_saturday)
    ∧ (∀ i,
         omap (deref (deleteGame i (getGames friday_saturday).2).2)
              (array_at (deleteGame i (getGames friday_saturday).2).2 a)
         = games_of friday_saturday)
    ∧ omap (deref (clearGames (getGames friday_saturday).2).2)
           (array_at (clearGames (getGames friday_saturday).2).2 a)
      = games_of friday_saturday
    ∧ (∀ i u,
         omap (deref (updateGame i u (getGames friday_saturday).2).2)
              (array_at (updateGame i u (getGames friday_saturday).2).2 a)
         = games_of (updateGame i u (getGames friday_saturday).2).2).
Proof.
  assert (Hwf : wf friday_saturday) by by_evaluation.
  exact (earlier_list_after_later_calls friday_saturday Hwf).
Defined.

(** ** The ids that [_generateId] builds *)

Lemma length_substring (n m : nat) (s : string) :
  String.length (String.substring n m s) = Nat.min m (String.length s - n).
Proof.
  revert n m. induction s as [|ch s IH]; intros n m.
  - destruct n, m; reflexivity.
  - destruct n as [|n].
    + destruct m as [|m]; [reflexivity |]. simpl. by rewrite IH, Nat.sub_0_r.
    + simpl. by rewrite IH.
Qed.

(** An id is an underscore followed by the characters 2 to 10 of the draw, at
    most nine and fewer when the draw is short: ten characters at most in
    all. *)
Theorem _generateId_shape (random36 : string) :
  String.prefix "_" (_generateId random36) = true
  ∧ String.length (_generateId random36)
    = S (Nat.min 9 (String.length random36 - 2))
  ∧ String.length (_generateId random36) ≤ 10.
Proof.
  assert (E : String.length (_generateId random36)
              = S (String.length (String.substring 2 9 random36)))
    by reflexivity.
  rewrite E, length_substring.
  split.
  { apply String.prefix_correct. unfold _generateId. simpl.
    by destruct (String.substring 2 9 random36). }
  split; [done | lia].
Qed.

(** ** The page *)

Lemma gain_ok_replayed (r : string) (g : game) : gain_ok (replayed r g).
Proof. reflexivity. Qed.

Lemma before_null_records (gs : list game) :
  StatsPage.before_null (Some <$> gs) = gs.
Proof. induction gs as [|g gs IH]; simpl; [done | f_equal; exact IH]. Qed.

Lemma before_null_stops (gs : list game) (rest : list (option game)) :
  StatsPage.before_null ((Some <$> gs) ++ None :: rest) = gs.
Proof. induction gs as [|g gs IH]; simpl; [done | f_equal; exact IH]. Qed.

(** [forEach] over the parsed array: the records before the first [null] are
    added, in order; the call throws exactly when there is a [null]; nothing
    but the tracker's array and the new objects is written. *)
Lemma forEach_addGame_result (random36 : nat → string)
    (parsedGames : list (option game)) :
  ∀ (k : nat) (st : state),
    wf st →
    wf (StatsPage.forEach_addGame random36 k parsedGames st).2
    ∧ games_of (StatsPage.forEach_addGame random36 k parsedGames st).2
      = games_of st
        ++ imap (λ n g, replayed (random36 (n + k)) g)
                (StatsPage.before_null parsedGames)
    ∧ (Forall is_Some parsedGames →
       (StatsPage.forEach_addGame random36 k parsedGames st).1 = Normal VUndefined)
    ∧ (¬ Forall is_Some parsedGames →
       (StatsPage.forEach_addGame random36 k parsedGames st).1 = Throw TypeError)
    ∧ _games (StatsPage.forEach_addGame random36 k parsedGames st).2 = _games st
    ∧ (∀ a : loc, a ≠ _games st →
         arrs (StatsPage.forEach_addGame random36 k parsedGames st).2 !! a
         = arrs st !! a).
Proof.
  induction parsedGames as [|[g|] rest IH]; intros k st Hwf.
  - simpl. rewrite app_nil_r.
    split; [done |]. split; [done |]. split; [done |]. split; [| done].
    intros H. destruct H. constructor.
  - change (StatsPage.forEach_addGame random36 k (Some g :: rest) st)
      with (StatsPage.forEach_addGame random36 (S k) rest
              (addGame (random36 k) (gameName g) (buyIn g) (cashOut g)
                       (stakes g) st).2).
    destruct (IH (S k) _ (addGame_wf (random36 k) (gameName g) (buyIn g) (cashOut g)
                                     (stakes g) st Hwf))
      as (Hwf' & Hgames & Hok & Hthrow & Hg & Hframe).
    split; [done |]. split; [| split; [| split; [| split]]].
    + rewrite Hgames, addGame_games by done.
      rewrite <- app_assoc. f_equal. simpl StatsPage.before_null.
      rewrite imap_cons. simpl. f_equal.
      apply imap_ext. intros n x _. simpl. by rewrite Nat.add_succ_r.
    + intros H. apply Hok. by apply Forall_cons in H as [_ H].
    + intros H. apply Hthrow. intros H'. apply H. constructor; [by eexists | done].
    + by rewrite Hg.
    + intros a Ha. rewrite Hframe by done.
      rewrite addGame_state; simpl. by apply lookup_alter_ne.
  - simpl. rewrite app_nil_r.
    split; [done |]. split; [done |]. split; [| done].
    intros H. apply Forall_cons in H as [[? [=]] _].
Qed.

(** The page after [setGames(tracker.getGames())]. *)
Lemma setGames_getGames (st : state) (p : StatsPage.page) :
  wf st →
  wf (StatsPage.tracker (StatsPage.setGames (getGames st) p))
  ∧ games_of (StatsPage.tracker (StatsPage.setGames (getGames st) p)) = games_of st
  ∧ StatsPage.rows (StatsPage.setGames (getGames st) p) = games_of st.
Proof.
  intros Hwf.
  assert (E : StatsPage.setGames (getGames st) p
              = StatsPage.Page (getGames st).2 (fresh (dom (arrs st))))
    by reflexivity.
  rewrite E. unfold StatsPage.rows. cbn [StatsPage.tracker StatsPage.games].
  split; [by apply getGames_wf |]. split; [by apply getGames_games |].
  rewrite getGames_state. cbn [snd]. by rewrite array_at_insert_eq.
Qed.

Lemma imap_replayed_from_0 (random36 : nat → string) (gs : list game) :
  imap (λ n g, replayed (random36 (n + 0)) g) gs
  = imap (λ k g, replayed (random36 k) g) gs.
Proof. apply imap_ext. intros n x _. simpl. by rewrite Nat.add_0_r. Qed.

(** The load effect on a parsed array. *)
Lemma loadEffect_parsed (random36 : nat → string)
    (parsedGames : list (option game)) (p : StatsPage.page) :
  wf (StatsPage.tracker
        (StatsPage.loadEffect random36 (StatsPage.Parsed parsedGames) p))
  ∧ games_of (StatsPage.tracker
                (StatsPage.loadEffect random36 (StatsPage.Parsed parsedGames) p))
    = imap (λ k g, replayed (random36 k) g) (StatsPage.before_null parsedGames)
  ∧ (Forall is_Some parsedGames →
     StatsPage.rows (StatsPage.loadEffect random36 (StatsPage.Parsed parsedGames) p)
     = imap (λ k g, replayed (random36 k) g) (StatsPage.before_null parsedGames))
  ∧ (¬ Forall is_Some parsedGames →
     StatsPage.loadEffect random36 (StatsPage.Parsed parsedGames) p
     = StatsPage.Page
         (StatsPage.forEach_addGame random36 0 parsedGames
            (clearGames (StatsPage.tracker p)).2).2
         (StatsPage.games p)).
Proof.
  unfold StatsPage.loadEffect. cbv zeta.
  destruct (forEach_addGame_result random36 parsedGames 0 _
              (clearGames_wf (StatsPage.tracker p)))
    as (Hwf & Hgames & Hok & Hthrow & _ & _).
  rewrite clearGames_games, app_nil_l, imap_replayed_from_0 in Hgames.
  destruct (StatsPage.forEach_addGame random36 0 parsedGames
              (clearGames (StatsPage.tracker p)).2) as [[v|e] st2] eqn:E;
    cbn [fst snd] in *.
  - destruct (setGames_getGames _ p Hwf) as (H1 & H2 & H3).
    rewrite H2, H3, Hgames. split; [done |]. split; [done |]. split; [done |].
    intros Hnull. by specialize (Hthrow Hnull).
  - cbn [StatsPage.tracker]. split; [done |]. split; [done |]. split; [| done].
    intros Hall. by specialize (Hok Hall).
Qed.

Lemma Forall_gain_ok_imap_replayed (f : nat → string) (gs : list game) :
  Forall gain_ok (imap (λ k g, replayed (f k) g) gs).
Proof.
  apply Forall_forall. intros g Hg. apply list_elem_of_lookup in Hg as [k Hk].
  rewrite list_lookup_imap in Hk. destruct (gs !! k) as [h|]; [| done].
  injection Hk as <-. apply gain_ok_replayed.
Qed.

Lemma mount_page_ok : page_ok StatsPage.mount.
Proof.
  split; [by_evaluation |]. split; [vm_compute; reflexivity |].
  assert (E : games_of (StatsPage.tracker StatsPage.mount) = [])
    by (vm_compute; reflexivity).
  rewrite E. constructor.
Qed.

(** On every page the tracker's store is well formed and its records keep
    [gainLoss = cashOut - buyIn]. *)
Lemma shown_tracker_ok (random36 : nat → string) (savedGames : StatsPage.saved)
    (p : StatsPage.page) :
  StatsPage.shown random36 savedGames p →
  wf (StatsPage.tracker p) ∧ Forall gain_ok (games_of (StatsPage.tracker p)).
Proof.
  induction 1 as [| | r n b c s p _ IH | p _ IH].
  - destruct mount_page_ok as (? & _ & ?). done.
  - destruct savedGames as [| | | parsedGames].
    + destruct mount_page_ok as (? & _ & ?). done.
    + destruct mount_page_ok as (? & _ & ?). done.
    + unfold StatsPage.loadEffect. cbn [StatsPage.tracker].
      split; [apply clearGames_wf |]. rewrite clearGames_games. constructor.
    + destruct (loadEffect_parsed random36 parsedGames StatsPage.mount)
        as (H1 & H2 & _).
      split; [done |]. rewrite H2. apply Forall_gain_ok_imap_replayed.
  - destruct IH as (Hwf & Hinv). unfold StatsPage.handleAddGame.
    destruct (setGames_getGames _ p (addGame_wf r n b c s _ Hwf)) as (H1 & H2 & _).
    split; [done |]. rewrite H2. by apply gain_ok_addGame.
  - unfold StatsPage.handleClearData.
    destruct (setGames_getGames _ p (clearGames_wf (StatsPage.tracker p)))
      as (H1 & H2 & _).
    split; [done |]. rewrite H2, clearGames_games. constructor.
Qed.

(** When the saved item loads fully, the table shows the tracker's records on
    every page. *)
Lemma shown_rows (random36 : nat → string) (savedGames : StatsPage.saved)
    (p : StatsPage.page) :
  StatsPage.loads_fully savedGames →
  StatsPage.shown random36 savedGames p →
  StatsPage.rows p = games_of (StatsPage.tracker p).
Proof.
  intros Hfull. induction 1 as [| | r n b c s p Hp _ | p Hp _].
  - by destruct mount_page_ok as (_ & ? & _).
  - destruct savedGames as [| | | parsedGames].
    + by destruct mount_page_ok as (_ & ? & _).
    + by destruct mount_page_ok as (_ & ? & _).
    + done.
    + destruct (loadEffect_parsed random36 parsedGames StatsPage.mount)
        as (_ & H2 & H3 & _).
      by rewrite H2, H3.
  - destruct (shown_tracker_ok _ _ _ Hp) as (Hwf & _).
    unfold StatsPage.handleAddGame.
    destruct (setGames_getGames _ p (addGame_wf r n b c s _ Hwf)) as (_ & H2 & H3).
    by rewrite H2, H3.
  - unfold StatsPage.handleClearData.
    destruct (setGames_getGames _ p (clearGames_wf (StatsPage.tracker p)))
      as (_ & H2 & H3).
    by rewrite H2, H3.
Qed.

(** When the saved item is absent, is rejected by [JSON.parse] or is an array
    of session records, the table and the footer agree on every page: the
    rows are the records of the tracker, each row has
    [gainLoss = cashOut - buyIn], the three totals of the footer are the sums
    over the rows and the count is the number of rows. *)
Theorem table_and_footer_agree (random36 : nat → string)
    (savedGames : StatsPage.saved) (p : StatsPage.page) :
  StatsPage.loads_fully savedGames →
  StatsPage.shown random36 savedGames p →
  StatsPage.rows p = games_of (StatsPage.tracker p)
  ∧ Forall (λ g, gainLoss g = (cashOut g - buyIn g)%Qc) (StatsPage.rows p)
  ∧ (getTotalGainLoss (StatsPage.tracker p)).1
    = Normal (VNumber (sum_of gainLoss (StatsPage.rows p)))
  ∧ (getTotalBuyIn (StatsPage.tracker p)).1
    = Normal (VNumber (sum_of buyIn (StatsPage.rows p)))
  ∧ (getTotalCashOut (StatsPage.tracker p)).1
    = Normal (VNumber (sum_of cashOut (StatsPage.rows p)))
  ∧ (getTotalGamesPlayed (StatsPage.tracker p)).1
    = Normal (VNumber (number_of_nat (length (StatsPage.rows p)))).
Proof.
  intros Hfull H. destruct (shown_tracker_ok _ _ p H) as (Hwf & Hinv).
  pose proof (shown_rows _ _ p Hfull H) as Hrows.
  unfold getTotalGainLoss, getTotalBuyIn, getTotalCashOut, getTotalGamesPlayed.
  cbn [fst]. rewrite !reduce_field_sum, Hrows, games_of_length by done.
  repeat split. exact Hinv.
Qed.

Lemma table_and_footer_agree_witness :
  let saved := StatsPage.Parsed
                 [Some (Game "_4fzyo82mv" "Friday Game" (num 100) (num 150) "1/2"
                             (num 50))] in
  let p := StatsPage.handleAddGame "0.k3x9q0a7bc1" "Saturday Game" (num 200)
             (num 180) "2/5" (StatsPage.loadEffect draws saved StatsPage.mount) in
  StatsPage.rows p = games_of (StatsPage.tracker p)
  ∧ Forall (λ g, gainLoss g = (cashOut g - buyIn g)%Qc) (StatsPage.rows p)
  ∧ (getTotalGainLoss (StatsPage.tracker p)).1
    = Normal (VNumber (sum_of gainLoss (StatsPage.rows p)))
  ∧ (getTotalBuyIn (StatsPage.tracker p)).1
    = Normal (VNumber (sum_of buyIn (StatsPage.rows p)))
  ∧ (getTotalCashOut (StatsPage.tracker p)).1
    = Normal (VNumber (sum_of cashOut (StatsPage.rows p)))
  ∧ (getTotalGamesPlayed (StatsPage.tracker p)).1
    = Normal (VNumber (number_of_nat (length (StatsPage.rows p)))).
Proof.
  intros saved p.
  assert (Hfull : StatsPage.loads_fully saved).
  { repeat constructor. by eexists. }
  assert (Hs : StatsPage.shown draws saved p).
  { apply StatsPage.shown_handleAddGame, StatsPage.shown_loadEffect. }
  exact (table_and_footer_agree draws saved p Hfull Hs).
Defined.

(** What the handlers do to the table.  [handleAddGame] makes the table the
    records of the tracker followed by one new record, made of the drawn id,
    the four inputs and their difference; [handleClearData] empties the
    table.  When the saved item loaded fully the table showed the tracker's
    records before, so [handleAddGame] appends one row to it.  The load
    effect, given an array of saved records, replaces the table by one row per
    saved record, in the saved order, with the saved name, buy-in, cash-out
    and stakes, an id drawn anew and a gain/loss computed anew; given no item
    or a text [JSON.parse] rejects, it leaves the page as it is. *)
Theorem handlers_rewrite_the_table (random36 : nat → string)
    (savedGames : StatsPage.saved) (p : StatsPage.page) :
  StatsPage.shown random36 savedGames p →
  (∀ r n b c s,
     StatsPage.rows (StatsPage.handleAddGame r n b c s p)
     = games_of (StatsPage.tracker p) ++ [Game (_generateId r) n b c s (c - b)%Qc])
  ∧ StatsPage.rows (StatsPage.handleClearData p) = []
  ∧ (StatsPage.loads_fully savedGames →
     ∀ r n b c s,
       StatsPage.rows (StatsPage.handleAddGame r n b c s p)
       = StatsPage.rows p ++ [Game (_generateId r) n b c s (c - b)%Qc])
  ∧ (∀ draws' (records : list game) (p' : StatsPage.page),
       StatsPage.rows
         (StatsPage.loadEffect draws' (StatsPage.Parsed (Some <$> records)) p')
       = imap (λ k g, Game (_generateId (draws' k)) (gameName g) (buyIn g)
                           (cashOut g) (stakes g) (cashOut g - buyIn g)%Qc)
              records)
  ∧ (∀ draws' (p' : StatsPage.page),
       StatsPage.loadEffect draws' StatsPage.NoItem p' = p'
       ∧ StatsPage.loadEffect draws' StatsPage.Malformed p' = p').
Proof.
  intros H. destruct (shown_tracker_ok _ _ p H) as (Hwf & _).
  assert (Hadd : ∀ r n b c s,
            StatsPage.rows (StatsPage.handleAddGame r n b c s p)
            = games_of (StatsPage.tracker p)
              ++ [Game (_generateId r) n b c s (c - b)%Qc]).
  { intros r n b c s. unfold StatsPage.handleAddGame.
    destruct (setGames_getGames _ p (addGame_wf r n b c s _ Hwf)) as (_ & _ & ->).
    by apply addGame_games. }
  split; [exact Hadd |]. split; [| split; [| split]].
  - unfold StatsPage.handleClearData.
    destruct (setGames_getGames _ p (clearGames_wf (StatsPage.tracker p)))
      as (_ & _ & ->).
    apply clearGames_games.
  - intros Hfull r n b c s. rewrite (shown_rows _ _ p Hfull H). apply Hadd.
  - intros draws' records p'.
    destruct (loadEffect_parsed draws' (Some <$> records) p') as (_ & _ & Hrows & _).
    rewrite Hrows, before_null_records; [done |].
    apply Forall_fmap, Forall_true. intros g. by eexists.
  - done.
Qed.

Lemma handlers_rewrite_the_table_witness :
  StatsPage.rows (StatsPage.handleClearData
                    (StatsPage.handleAddGame "0.4fzyo82mvyr" "Friday Game" (num 100)
                       (num 150) "1/2"
                       (StatsPage.loadEffect draws StatsPage.NoItem StatsPage.mount)))
  = [].
Proof.
  assert (Hs : StatsPage.shown draws StatsPage.NoItem
                 (StatsPage.handleAddGame "0.4fzyo82mvyr" "Friday Game" (num 100)
                    (num 150) "1/2"
                    (StatsPage.loadEffect draws StatsPage.NoItem StatsPage.mount))).
  { apply StatsPage.shown_handleAddGame, StatsPage.shown_loadEffect. }
  exact (proj1 (proj2 (handlers_rewrite_the_table _ _ _ Hs))).
Defined.

Lemma replayed_keeps_fields (f : nat → string) (gs : list game) :
  Forall gain_ok gs →
  Forall2 (λ g g', gameName g' = gameName g ∧ buyIn g' = buyIn g
                   ∧ cashOut g' = cashOut g ∧ stakes g' = stakes g
                   ∧ gainLoss g' = gainLoss g)
          gs (imap (λ k g, replayed (f k) g) gs).
Proof.
  intros H. revert f. induction H as [|g gs Hg _ IH]; intros f; [constructor |].
  rewrite imap_cons. constructor.
  - simpl. by rewrite Hg.
  - apply (IH (f ∘ S)).
Qed.

Lemma sum_of_same_fields (f : game → Qc) (R : game → game → Prop)
    (gs hs : list game) :
  (∀ g h, R g h → f h = f g) → Forall2 R gs hs → sum_of f hs = sum_of f gs.
Proof.
  intros HR. induction 1 as [|g h gs hs Hgh _ IH]; [done |].
  simpl. by rewrite IH, (HR g h Hgh).
Qed.

(** Saving and loading again.  Take a page whose own saved item loaded fully.
    When the records it shows are what the load effect later reads back, the
    page that the effect builds shows the same sessions in the same order:
    each row has the name, buy-in, cash-out, stakes and gain/loss of the saved
    row, and the four figures of the footer are those of the page that was
    saved.  The ids are not kept: row [k] gets the id of the [k]-th draw. *)
Theorem reload_keeps_the_sessions
    (random36 : nat → string) (savedGames : StatsPage.saved) (p0 : StatsPage.page)
    (draws' : nat → string) (p : StatsPage.page) :
  StatsPage.loads_fully savedGames →
  StatsPage.shown random36 savedGames p0 →
  Forall2 (λ g g', gameName g' = gameName g ∧ buyIn g' = buyIn g
                   ∧ cashOut g' = cashOut g ∧ stakes g' = stakes g
                   ∧ gainLoss g' = gainLoss g)
          (StatsPage.rows p0)
          (StatsPage.rows
             (StatsPage.loadEffect draws'
                (StatsPage.Parsed (Some <$> StatsPage.rows p0)) p))
  ∧ id <$> StatsPage.rows
             (StatsPage.loadEffect draws'
                (StatsPage.Parsed (Some <$> StatsPage.rows p0)) p)
    = imap (λ k _, _generateId (draws' k)) (StatsPage.rows p0)
  ∧ (getTotalGainLoss
       (StatsPage.tracker
          (StatsPage.loadEffect draws'
             (StatsPage.Parsed (Some <$> StatsPage.rows p0)) p))).1
    = (getTotalGainLoss (StatsPage.tracker p0)).1
  ∧ (getTotalBuyIn
       (StatsPage.tracker
          (StatsPage.loadEffect draws'
             (StatsPage.Parsed (Some <$> StatsPage.rows p0)) p))).1
    = (getTotalBuyIn (StatsPage.tracker p0)).1
  ∧ (getTotalCashOut
       (StatsPage.tracker
          (StatsPage.loadEffect draws'
             (StatsPage.Parsed (Some <$> StatsPage.rows p0)) p))).1
    = (getTotalCashOut (StatsPage.tracker p0)).1
  ∧ (getTotalGamesPlayed
       (StatsPage.tracker
          (StatsPage.loadEffect draws'
             (StatsPage.Parsed (Some <$> StatsPage.rows p0)) p))).1
    = (getTotalGamesPlayed (StatsPage.tracker p0)).1.
Proof.
  intros Hfull H. destruct (shown_tracker_ok _ _ p0 H) as (Hwf0 & Hinv0).
  pose proof (shown_rows _ _ p0 Hfull H) as Hrows0.
  assert (Hall : Forall is_Some (Some <$> StatsPage.rows p0)).
  { apply Forall_fmap, Forall_true. intros g. by eexists. }
  destruct (loadEffect_parsed draws' (Some <$> StatsPage.rows p0) p)
    as (Hwf & Hgames & Hrows & _).
  specialize (Hrows Hall). rewrite before_null_records in Hgames, Hrows.
  rewrite <- Hrows0 in Hinv0.
  pose proof (replayed_keeps_fields draws' _ Hinv0) as Hsame.
  rewrite Hrows. split; [done |]. split.
  { rewrite fmap_imap. by apply imap_ext. }
  unfold getTotalGainLoss, getTotalBuyIn, getTotalCashOut, getTotalGamesPlayed.
  cbn [fst]. rewrite !reduce_field_sum.
  rewrite <- !games_of_length by done. rewrite Hgames, <- Hrows0, length_imap.
  split; [| split; [| split]]; try done; do 2 f_equal;
    (eapply sum_of_same_fields; [| exact Hsame]); by intros g h (? & ? & ? & ? & ?).
Qed.

Lemma reload_keeps_the_sessions_witness :
  let p0 := StatsPage.handleAddGame "0.k3x9q0a7bc1" "Saturday Game" (num 200)
              (num 180) "2/5"
              (StatsPage.handleAddGame "0.4fzyo82mvyr" "Friday Game" (num 100)
                 (num 150) "1/2"
                 (StatsPage.loadEffect draws StatsPage.NoItem StatsPage.mount)) in
  id <$> StatsPage.rows
           (StatsPage.loadEffect draws
              (StatsPage.Parsed (Some <$> StatsPage.rows p0)) StatsPage.mount)
  = imap (λ k _, _generateId (draws k)) (StatsPage.rows p0).
Proof.
  intros p0.
  assert (Hs : StatsPage.shown draws StatsPage.NoItem p0).
  { apply StatsPage.shown_handleAddGame, StatsPage.shown_handleAddGame,
          StatsPage.shown_loadEffect. }
  exact (proj1 (proj2 (reload_keeps_the_sessions draws StatsPage.NoItem p0 draws
                         StatsPage.mount I Hs))).
Defined.

Example reload_draws_new_ids :
  let p0 := StatsPage.handleAddGame "0.k3x9q0a7bc1" "Saturday Game" (num 200)
              (num 180) "2/5"
              (StatsPage.handleAddGame "0.4fzyo82mvyr" "Friday Game" (num 100)
                 (num 150) "1/2" StatsPage.mount) in
  id <$> StatsPage.rows p0 = ["_4fzyo82mv"; "_k3x9q0a7b"]
  ∧ id <$> StatsPage.rows
             (StatsPage.loadEffect draws
                (StatsPage.Parsed (Some <$> StatsPage.rows p0)) StatsPage.mount)
    = ["_9zk1m4q7w"; "_c81hs5t0x"].
Proof. split; vm_compute; reflexivity. Qed.

(** A saved array with a [null] in it is loaded in part.  The records before
    the first [null] are added to the tracker; then the callback throws, the
    error is caught and [setGames] is not called: on the page after the load
    effect the footer counts those records and the table is empty.  A saved
    value that is not an array leaves the tracker empty. *)
Theorem load_stops_at_null (random36 : nat → string) (records : list game)
    (rest : list (option game)) :
  StatsPage.shown random36
    (StatsPage.Parsed ((Some <$> records) ++ None :: rest))
    (StatsPage.loadEffect random36
       (StatsPage.Parsed ((Some <$> records) ++ None :: rest)) StatsPage.mount)
  ∧ games_of (StatsPage.tracker
                (StatsPage.loadEffect random36
                   (StatsPage.Parsed ((Some <$> records) ++ None :: rest))
                   StatsPage.mount))
    = imap (λ k g, Game (_generateId (random36 k)) (gameName g) (buyIn g)
                        (cashOut g) (stakes g) (cashOut g - buyIn g)%Qc)
           records
  ∧ (getTotalGamesPlayed
       (StatsPage.tracker
          (StatsPage.loadEffect random36
             (StatsPage.Parsed ((Some <$> records) ++ None :: rest))
             StatsPage.mount))).1
    = Normal (VNumber (number_of_nat (length records)))
  ∧ StatsPage.rows
      (StatsPage.loadEffect random36
         (StatsPage.Parsed ((Some <$> records) ++ None :: rest)) StatsPage.mount)
    = []
  ∧ games_of (StatsPage.tracker
                (StatsPage.loadEffect random36 StatsPage.NotAnArray StatsPage.mount))
    = [].
Proof.
  set (parsedGames := (Some <$> records) ++ None :: rest).
  assert (Hnull : ¬ Forall is_Some parsedGames).
  { intros Hall. apply Forall_app in Hall as [_ Hall].
    apply Forall_cons in Hall as [[? [=]] _]. }
  destruct (loadEffect_parsed random36 parsedGames StatsPage.mount)
    as (Hwf & Hgames & _ & Hpage).
  specialize (Hpage Hnull).
  unfold parsedGames in Hgames at 2. rewrite before_null_stops in Hgames.
  split; [apply StatsPage.shown_loadEffect |]. split; [exact Hgames |].
  split; [| split].
  - unfold getTotalGamesPlayed. cbn [fst].
    by rewrite <- games_of_length, Hgames, length_imap.
  - rewrite Hpage. unfold StatsPage.rows. cbn [StatsPage.tracker StatsPage.games].
    set (st1 := (clearGames (StatsPage.tracker StatsPage.mount)).2).
    assert (Hne : StatsPage.games StatsPage.mount ≠ _games st1) by by_evaluation.
    assert (H0 : arrs st1 !! StatsPage.games StatsPage.mount = Some [])
      by by_evaluation.
    destruct (forEach_addGame_result random36 parsedGames 0 st1
                (clearGames_wf (StatsPage.tracker StatsPage.mount)))
      as (_ & _ & _ & _ & _ & Hframe).
    unfold array_at. by rewrite (Hframe _ Hne), H0.
  - unfold StatsPage.loadEffect. cbn [StatsPage.tracker]. apply clearGames_games.
Qed.

Example load_stops_at_null_example :
  let p := StatsPage.loadEffect draws
             (StatsPage.Parsed
                [Some (Game "_4fzyo82mv" "Friday Game" (num 100) (num 150) "1/2"
                            (num 50));
                 None;
                 Some (Game "_k3x9q0a7b" "Saturday Game" (num 200) (num 180) "2/5"
                            (num (-20)))])
             StatsPage.mount in
  StatsPage.rows p = []
  ∧ games_of (StatsPage.tracker p)
    = [Game "_9zk1m4q7w" "Friday Game" (num 100) (num 150) "1/2" (num 50)]
  ∧ (getTotalGamesPlayed (StatsPage.tracker p)).1 = Normal (VNumber (num 1)).
Proof. repeat split; vm_compute; reflexivity. Qed.

(** ** Calls in sequence *)

(** After [deleteGame] of an id, [updateGame] of that id throws "Game session
    not found" and changes nothing. *)
Theorem updateGame_after_deleteGame (i : string) (u : UpdatedData.t) (st : state) :
  updateGame i u (deleteGame i st).2
  = (Throw (Error "Game session not found"), (deleteGame i st).2).
Proof.
  apply updateGame_not_found. rewrite deleteGame_games.
  apply Forall_forall. intros g Hg. by apply list_elem_of_filter in Hg as [Hg _].
Qed.

(** After [addGame], [updateGame] of the id that was drawn reaches the new
    record, provided no older record has that id: the ledger is then the
    older records followed by the new record merged with the supplied
    fields. *)
Theorem updateGame_after_addGame
    (r n : string) (b c : Qc) (s : string) (u : UpdatedData.t) (st : state) :
  wf st →
  Forall (λ g, id g ≠ _generateId r) (games_of st) →
  (updateGame (_generateId r) u (addGame r n b c s st).2).1 = Normal VUndefined
  ∧ games_of (updateGame (_generateId r) u (addGame r n b c s st).2).2
    = games_of st ++ [merged u (Game (_generateId r) n b c s (c - b)%Qc)].
Proof.
  intros Hwf Hnew.
  pose proof (addGame_wf r n b c s st Hwf) as Hwf'.
  pose proof (addGame_games r n b c s st Hwf) as Hadd.
  set (g := Game (_generateId r) n b c s (c - b)%Qc) in *.
  assert (Hlast : games_of (addGame r n b c s st).2 !! length (games_of st) = Some g).
  { rewrite Hadd. by apply list_lookup_middle. }
  destruct (updateGame_view (_generateId r) u _ Hwf')
    as [[Hno _] | (j & g0 & Hj & Hid & Hbefore & Hret & Hview)].
  { rewrite Forall_forall in Hno. destruct (Hno g); [| done].
    by eapply list_elem_of_lookup_2. }
  assert (j = length (games_of st)) as ->.
  { eapply (first_with_id_unique (_generateId r) (games_of (addGame r n b c s st).2));
      [exact Hj | exact Hid | exact Hbefore | exact Hlast | reflexivity |].
    rewrite Hadd, take_app_length. exact Hnew. }
  rewrite Hlast in Hj. injection Hj as <-.
  split; [done |]. rewrite Hview, Hadd.
  rewrite insert_app_r_alt by done. by rewrite Nat.sub_diag.
Qed.

Lemma updateGame_after_addGame_witness :
  (updateGame (_generateId "0.k3x9q0a7bc1")
     (UpdatedData.Make None None (Some (num 260)) None)
     (addGame "0.k3x9q0a7bc1" "Saturday Game" (num 200) (num 180) "2/5" friday).2).1
  = Normal VUndefined
  ∧ games_of
      (updateGame (_generateId "0.k3x9q0a7bc1")
         (UpdatedData.Make None None (Some (num 260)) None)
         (addGame "0.k3x9q0a7bc1" "Saturday Game" (num 200) (num 180) "2/5"
                  friday).2).2
    = games_of friday
      ++ [merged (UpdatedData.Make None None (Some (num 260)) None)
                 (Game (_generateId "0.k3x9q0a7bc1") "Saturday Game" (num 200)
                       (num 180) "2/5" (num 180 - num 200)%Qc)].
Proof.
  assert (Hwf : wf friday) by by_evaluation.
  assert (Hnew : Forall (λ g, id g ≠ _generateId "0.k3x9q0a7bc1") (games_of friday))
    by by_evaluation.
  exact (updateGame_after_addGame "0.k3x9q0a7bc1" "Saturday Game" (num 200) (num 180)
           "2/5" (UpdatedData.Make None None (Some (num 260)) None) friday Hwf Hnew).
Defined.
